(** * The decision-tree builder of [main.py]

    A shallow embedding of [DecisionTreeBuilder] (an [ast.NodeVisitor] that
    emits a graphviz digraph) and of [generate_decision_tree], followed by
    the properties of the graph construction.

    Conventions of the embedding:
    - a Python value that is a [str] or [None] is an [option string];
    - the builder object is a record threaded through every call;
    - a call that may raise returns a [result];
    - the digraph is its [body]: the statements in emission order;
    - the interpreter's limits are parameters: the stack is a number of
      frames, a library call returns or raises as [library] tells. *)

From Stdlib Require Import String Ascii Arith Lia Bool FinFun List.
From Stdlib Require Import Decimal DecimalNat DecimalString.
Import ListNotations.
Open Scope string_scope.
Open Scope list_scope.

(** * Part I: the program *)

(** ** Exceptions *)

(** The two classes [generate_decision_tree] tells apart: [SyntaxError], and
    every other [Exception]. The string is [str(e)]. *)
Inductive exn : Type :=
| SyntaxError (msg : string)
| Exception (msg : string).

Inductive result (A : Type) : Type :=
| Ok (a : A)
| Raise (e : exn).

Arguments Ok {A} a.
Arguments Raise {A} e.

Definition bind {A B : Type} (c : result A) (k : A -> result B) : result B :=
  match c with
  | Ok a => k a
  | Raise e => Raise e
  end.

Notation "x <- c1 ;; c2" := (bind c1 (fun x => c2))
  (at level 61, c1 at next level, right associativity).

(** ** The statement tree

    The nodes of Python's [ast] as the visitor tells them apart: [ast.If],
    [ast.Return], [ast.Expr], and every other node class ([Module], [While],
    [Pass], expressions, ...), which [NodeVisitor.generic_visit] walks through
    child by child in field order. The recognised nodes carry the text
    [ast.unparse] gives: of [node.test] for [If], of the node for the others. *)
Unset Elimination Schemes.
Inductive ast : Type :=
| If (test : string) (body orelse : list ast)
| Return (text : string)
| Expr (text : string)
| Other (children : list ast).
Set Elimination Schemes.

Section ast_induction.
Variable P : ast -> Prop.
Hypothesis P_If : forall test body orelse,
    Forall P body -> Forall P orelse -> P (If test body orelse).
Hypothesis P_Return : forall text, P (Return text).
Hypothesis P_Expr : forall text, P (Expr text).
Hypothesis P_Other : forall children, Forall P children -> P (Other children).

Fixpoint ast_ind (node : ast) : P node :=
  let fix all (l : list ast) : Forall P l :=
    match l with
    | [] => Forall_nil P
    | x :: l' => Forall_cons x (ast_ind x) (all l')
    end in
  match node with
  | If test body orelse => P_If test body orelse (all body) (all orelse)
  | Return text => P_Return text
  | Expr text => P_Expr text
  | Other children => P_Other children (all children)
  end.
End ast_induction.

(** ** The digraph *)

(** One statement of [graphviz.Digraph.body]: [graph.attr(kw, **attrs)],
    [graph.node(name, label, fillcolor=...)] or
    [graph.edge(tail_name, head_name, label=...)]. *)
Inductive item : Type :=
| AttrStmt (kw : string) (attrs : list (string * string))
| NodeStmt (name label fillcolor : string)
| EdgeStmt (tail_name head_name : string) (label : option string).

(** The fields of a [DecisionTreeBuilder]. *)
Record builder : Type := mkBuilder {
  graph : list item;
  current_node : option string;
  node_counter : nat;
  suppress_edge : bool
}.

Definition set_current_node (c : option string) (b : builder) : builder :=
  mkBuilder (graph b) c (node_counter b) (suppress_edge b).

Definition set_suppress_edge (s : bool) (b : builder) : builder :=
  mkBuilder (graph b) (current_node b) (node_counter b) s.

Definition emit (i : item) (b : builder) : builder :=
  mkBuilder (graph b ++ [i]) (current_node b) (node_counter b) (suppress_edge b).

(** [DecisionTreeBuilder.__init__] *)
Definition init : builder :=
  mkBuilder
    [AttrStmt "node" [("shape", "box"); ("style", "filled"); ("fillcolor", "lightblue")]]
    None 0 false.

(** [f"node_{self.node_counter}"] *)
Definition node_id (n : nat) : string :=
  ("node_" ++ NilEmpty.string_of_uint (Nat.to_uint n))%string.

(** Truth value of a [str]-or-[None] in an [if]: [None] and the empty string
    are false. *)
Definition truthy (v : option string) : bool :=
  match v with
  | None => false
  | Some s => negb (s =? "")
  end.

(** [a != b] on [str]-or-[None] values. *)
Definition ne (a b : option string) : bool :=
  match a, b with
  | None, None => false
  | Some x, Some y => negb (x =? y)
  | _, _ => true
  end.

Definition is_None (v : option string) : bool :=
  match v with None => true | Some _ => false end.

(** [self.graph.edge(tail, head, label=label)]: graphviz quotes both names,
    which raises on [None]. *)
Definition graph_edge (tail head label : option string) (b : builder)
  : result builder :=
  match tail, head with
  | Some t, Some h => Ok (emit (EdgeStmt t h label) b)
  | _, _ => Raise (Exception "'NoneType' object has no attribute 'partition'")
  end.

(** The two handlers of [generate_decision_tree]:
    [f"Syntax error: {e}"] and [f"Error: {e}"]. *)
Definition except_message (e : exn) : string :=
  match e with
  | SyntaxError msg => ("Syntax error: " ++ msg)%string
  | Exception msg => ("Error: " ++ msg)%string
  end.

(** ** Reading a digraph *)

Definition is_node (i : item) : bool :=
  match i with NodeStmt _ _ _ => true | _ => false end.

Definition is_edge (i : item) : bool :=
  match i with EdgeStmt _ _ _ => true | _ => false end.

(** The [graph.node] statements, and the [graph.edge] statements, in
    emission order. *)
Definition nodes (g : list item) : list item := filter is_node g.
Definition edges (g : list item) : list item := filter is_edge g.

(** The names of the nodes, in creation order. *)
Definition node_names (g : list item) : list string :=
  flat_map (fun i => match i with NodeStmt n _ _ => [n] | _ => [] end) g.

Definition eqb_label (a b : option string) : bool :=
  match a, b with
  | None, None => true
  | Some x, Some y => x =? y
  | _, _ => false
  end.

(** The edges that enter node [h]. *)
Definition enters (h : string) (i : item) : bool :=
  match i with EdgeStmt _ h' _ => h' =? h | _ => false end.

(** The edges with label [l] that leave node [t]. *)
Definition leaves (t : string) (l : option string) (i : item) : bool :=
  match i with EdgeStmt t' _ l' => (t' =? t) && eqb_label l' l | _ => false end.

(** ** Shapes of statement trees *)

(** No [ast.If] anywhere in the tree. *)
Fixpoint no_If (node : ast) : bool :=
  match node with
  | If _ _ _ => false
  | Return _ | Expr _ => true
  | Other children => forallb no_If children
  end.

(** No recognised statement anywhere in the tree. *)
Fixpoint unrecognized (node : ast) : bool :=
  match node with
  | If _ _ _ | Return _ | Expr _ => false
  | Other children => forallb unrecognized children
  end.

(** The recognised statements of a tree without conditionals, in source
    order, each with its text and fill colour. *)
Fixpoint statements (node : ast) : list (string * string) :=
  match node with
  | If _ _ _ => []
  | Return text => [(text, "lightgreen")]
  | Expr text => [(text, "lightyellow")]
  | Other children => flat_map statements children
  end.

(** The statement leaves the cursor on a node of its own: a [Return] or an
    [Expr], alone or somewhere under unrecognised wrappers, outside every
    conditional. *)
Fixpoint moves_cursor (node : ast) : bool :=
  match node with
  | If _ _ _ => false
  | Return _ | Expr _ => true
  | Other children => existsb moves_cursor children
  end.

(** ** Invariants of the traversal *)

(** [s] names a node created while the counter went from [lo] to [hi]. *)
Definition created (lo hi : nat) (s : string) : Prop :=
  exists j, lo <= j < hi /\ s = node_id j.

(** What holds of the builder between any two calls: the cursor and the ends
    of every edge name nodes that exist. *)
Record wf (b : builder) : Prop := {
  wf_cursor : forall s, current_node b = Some s -> created 0 (node_counter b) s;
  wf_edges : forall t h l, In (EdgeStmt t h l) (graph b) ->
      created 0 (node_counter b) t /\ created 0 (node_counter b) h
}.

(** [items] is what a call emitted while it took the builder from [b] to
    [b']. The nodes are named by the counter values passed. Every edge
    enters a node of the call's own; it leaves either a node of the call's
    own, or a node [t] that [tails] allows for the edge's label. The cursor
    ends where it was or on a node of the call's own. *)
Record grows (tails : option string -> string -> Prop)
       (b b' : builder) (items : list item) : Prop := {
  grows_graph : graph b' = graph b ++ items;
  grows_counter : node_counter b <= node_counter b';
  grows_nodes : node_names items
                = map node_id (seq (node_counter b) (node_counter b' - node_counter b));
  grows_edges : forall i, In i items ->
      match i with
      | AttrStmt _ _ => False
      | NodeStmt _ _ _ => True
      | EdgeStmt t h l =>
          created (node_counter b) (node_counter b') h /\
          (tails l t \/ created (node_counter b) (node_counter b') t)
      end;
  grows_cursor : current_node b' = current_node b \/
      exists s, created (node_counter b) (node_counter b') s /\
                current_node b' = Some s
}.

(** Edges a visit may draw from outside itself: unlabelled, from the cursor
    it started with. *)
Definition visit_tails (b : builder) (l : option string) (t : string) : Prop :=
  current_node b = Some t /\ l = None.

(** Edges a branch walk may draw from outside itself: from the cursor it
    started with, unlabelled or with the branch label; from the condition
    node, with the branch label. *)
Definition walk_tails (condition_node label : string) (b : builder)
           (l : option string) (t : string) : Prop :=
  (current_node b = Some t /\ (l = None \/ l = Some label)) \/
  (t = condition_node /\ l = Some label).

(** Where a visit leaves the cursor: on a node of its own when the
    statement moves it, where it was otherwise. *)
Definition cursor_after (moved : bool) (b b' : builder) : Prop :=
  if moved
  then exists s, created (node_counter b) (node_counter b') s /\
                 current_node b' = Some s
  else current_node b' = current_node b.

(** The invariant, decided on a given builder. *)
Definition is_created (lo hi : nat) (s : string) : bool :=
  existsb (fun j => s =? node_id j)%string (seq lo (hi - lo)).

Definition wfb (b : builder) : bool :=
  match current_node b with
  | None => true
  | Some s => is_created 0 (node_counter b) s
  end &&
  forallb (fun i => match i with
                    | EdgeStmt t h _ => is_created 0 (node_counter b) t &&
                                        is_created 0 (node_counter b) h
                    | _ => true
                    end) (graph b).

(** ** Further readings of trees and graphs *)

(** The recognised statements the visitor reaches, in the order it reaches
    them, each with the label handed to [create_node] and the fill colour. *)
Fixpoint reached (node : ast) : list (string * string) :=
  match node with
  | If test body orelse =>
      (("Condition: " ++ test)%string, "lightblue") ::
      flat_map reached body ++ flat_map reached orelse
  | Return text => [(text, "lightgreen")]
  | Expr text => [(text, "lightyellow")]
  | Other children => flat_map reached children
  end.

(** Every edge of the builder goes from a node to a node created later. *)
Definition forward (b : builder) : Prop :=
  forall t h l, In (EdgeStmt t h l) (graph b) ->
    exists i j, i < j < node_counter b /\ t = node_id i /\ h = node_id j.

(** The statement is no [graph.attr], and as an edge it has no label or one
    of the labels "True" and "False". *)
Definition label_ok (i : item) : Prop :=
  match i with
  | AttrStmt _ _ => False
  | NodeStmt _ _ _ => True
  | EdgeStmt _ _ l => l = None \/ l = Some "True" \/ l = Some "False"
  end.

(** A [Return] or an [Expr]. *)
Definition is_leaf (node : ast) : bool :=
  match node with
  | Return _ | Expr _ => true
  | _ => false
  end.

(** What [open(args.input_file, 'r')] and [f.read()] come to in [main]: the
    contents, a [FileNotFoundError], or another exception with its
    [str(e)]. *)
Inductive read_result : Type :=
| Contents (code : string)
| FileNotFoundError
| ReadError (msg : string).

(** A statement, a builder and an outcome without the labels of the nodes. *)
Definition unlabel (i : item) : item :=
  match i with
  | NodeStmt name _ fillcolor => NodeStmt name "" fillcolor
  | _ => i
  end.

Definition skeleton (b : builder) : builder :=
  mkBuilder (map unlabel (graph b)) (current_node b) (node_counter b)
            (suppress_edge b).

Definition skeleton_of (r : result builder) : result builder :=
  match r with
  | Ok b => Ok (skeleton b)
  | Raise e => Raise e
  end.

(** The wrapping that returns no text at all. *)
Definition blank (label : string) : string := "".

(** [s] names a node of a [Return] or of an [Expr] in the graph [g]. *)
Definition leaf_node (g : list item) (s : string) : Prop :=
  exists label fillcolor,
    In (NodeStmt s label fillcolor) g /\
    (fillcolor = "lightgreen" \/ fillcolor = "lightyellow").

(** Every labelled edge of the builder enters such a node. *)
Definition labels_enter_leaves (b : builder) : Prop :=
  forall t h l, In (EdgeStmt t h (Some l)) (graph b) -> leaf_node (graph b) h.

(** ** Deep trees

    The frames the visitor's own calls need for a tree, whatever the library
    calls need below them. *)
Fixpoint own_frames (node : ast) : nat :=
  match node with
  | If _ body orelse =>
      2 + Nat.max (list_max (map own_frames body))
                  (list_max (map own_frames orelse))
  | Return _ | Expr _ => 2
  | Other children => Nat.max 4 (3 + list_max (map own_frames children))
  end.

(** [if x: pass] followed by [n] times [elif x: pass]: each [elif] is an
    [ast.If] alone in the [orelse] of the one before, [pass] an [ast.Pass]. *)
Fixpoint elif_chain (n : nat) : ast :=
  match n with
  | 0 => If "x" [Other []] []
  | S n' => If "x" [Other []] [elif_chain n']
  end.

(** The sum [1 + 1 + ... + 1] of [n + 1] terms, an [ast.BinOp] of its left
    operand, its operator and its right operand; and the assignment
    [x = 1 + ... + 1], an [ast.Assign] of the target [x], an [ast.Name] with
    its context, and of the sum. *)
Fixpoint sum_expr (n : nat) : ast :=
  match n with
  | 0 => Other []
  | S n' => Other [sum_expr n'; Other []; Other []]
  end.

Definition sum_assignment (n : nat) : ast :=
  Other [Other [Other []]; sum_expr n].

(** Library calls that return whatever the stack: with them the visitor's
    own frames are all that counts, and a run that meets a limit meets it
    under any other library too. *)
Definition calls_return (frames : nat) (st : string * string) : option exn := None.

(** ** Labels that fit a line

    [textwrap.fill] returns unchanged a label of at most 40 characters whose
    words are separated by single blanks; on such labels it is the
    function below. *)
Definition no_wrap (label : string) : string := label.

(** ** The builder *)

Section Builder.

(** [textwrap.fill(label, width=40)], a function of the standard library. *)
Variable fill : string -> string.

(** The interpreter's limits. [stack] is the number of frames the
    interpreter still admits when [generate_decision_tree] calls
    [builder.visit(tree)]: [sys.getrecursionlimit()], less the frames of the
    callers. [overflow_msg] is the [str(e)] of the [RecursionError] raised
    when a call of the visitor finds no frame.

    [library k st] is what the library calls of a visitor method do for the
    statement [st], given by the label handed to [create_node] and the fill
    colour, when [k] frames are left below the method: [ast.unparse], then
    [textwrap.fill] and [graph.node] in [create_node]. It is [None] when all
    of them return, and the exception of the first that raises otherwise: a
    [RecursionError], or the [ValueError] of [ast.unparse] on an integer of
    more digits than the interpreter converts. For a statement that
    [ast.unparse] refuses, the text in the tree is the one it gives when the
    interpreter sets it no limit. [graph.edge] is taken to return wherever
    [graph.node] returned, both its ends being given. *)
Variable library : nat -> string * string -> option exn.
Variable overflow_msg : string.
Variable stack : nat.

(** [create_node] *)
Definition create_node (label fillcolor : string) (b : builder)
  : string * builder :=
  let node_id := node_id (node_counter b) in
  let b := mkBuilder (graph b) (current_node b) (S (node_counter b))
                     (suppress_edge b) in
  let wrapped_label := fill label in
  (node_id, emit (NodeStmt node_id wrapped_label fillcolor) b).

(** [visit_Return] *)
Definition visit_Return (return_text : string) (b : builder) : result builder :=
  let (return_node, b) := create_node return_text "lightgreen" b in
  b <- (if truthy (current_node b) && negb (suppress_edge b)
        then graph_edge (current_node b) (Some return_node) None b
        else Ok b) ;;
  Ok (set_current_node (Some return_node) b).

(** [generic_visit], the [isinstance(node, ast.Expr)] arm *)
Definition generic_visit_Expr (expr_text : string) (b : builder) : result builder :=
  let (expr_node, b) := create_node expr_text "lightyellow" b in
  b <- (if truthy (current_node b) && negb (suppress_edge b)
        then graph_edge (current_node b) (Some expr_node) None b
        else Ok b) ;;
  Ok (set_current_node (Some expr_node) b).

Section Walks.
Variable visit : ast -> builder -> result builder.

(** [NodeVisitor.generic_visit]: [self.visit] on every child in turn. *)
Fixpoint visit_children (children : list ast) (b : builder) : result builder :=
  match children with
  | [] => Ok b
  | child :: rest => b <- visit child b ;; visit_children rest b
  end.

(** The [for stmt in node.body] loop of [visit_If] (lines 32-41) with
    [label = "True"], and the [for stmt in node.orelse] loop (lines 45-54)
    with [label = "False"]. [branch] is the local [true_branch], resp.
    [false_branch]. *)
Fixpoint branch_walk (condition_node label : string) (stmts : list ast)
         (branch : option string) (b : builder) : result builder :=
  match stmts with
  | [] => Ok b
  | stmt :: rest =>
      let prev := current_node b in
      let b := set_suppress_edge true b in
      b <- visit stmt b ;;
      let b := set_suppress_edge false b in
      if ne (current_node b) prev && is_None branch then
        let branch := current_node b in
        b <- graph_edge (Some condition_node) branch (Some label) b ;;
        branch_walk condition_node label rest branch b
      else if ne (current_node b) prev then
        b <- graph_edge prev (current_node b) (Some label) b ;;
        branch_walk condition_node label rest branch b
      else
        branch_walk condition_node label rest branch b
  end.

(** [visit_If] *)
Definition visit_If (condition_text : string) (body orelse : list ast)
           (b : builder) : result builder :=
  let (condition_node, b) :=
    create_node ("Condition: " ++ condition_text)%string "lightblue" b in
  let parent := current_node b in
  b <- (if truthy parent
        then graph_edge parent (Some condition_node) None b
        else Ok b) ;;
  let b := set_current_node (Some condition_node) b in
  b <- branch_walk condition_node "True" body None b ;;
  let b := set_current_node (Some condition_node) b in
  b <- branch_walk condition_node "False" orelse None b ;;
  Ok (set_current_node parent b).
End Walks.

(** [NodeVisitor.visit]: dispatch on the node class to [visit_If],
    [visit_Return] or [generic_visit]; the latter has its arm for [ast.Expr]
    and hands every other node to [NodeVisitor.generic_visit]. *)
Fixpoint visit (node : ast) (b : builder) : result builder :=
  match node with
  | If condition_text body orelse => visit_If visit condition_text body orelse b
  | Return return_text => visit_Return return_text b
  | Expr expr_text => generic_visit_Expr expr_text b
  | Other children => visit_children visit children b
  end.

(** [builder = DecisionTreeBuilder(); builder.visit(tree)], with a frame for
    every call and library calls that return *)
Definition build (tree : ast) : result builder := visit tree init.

(** ** The builder within the interpreter's limits

    [visit] above is the visitor where every call finds a frame and every
    library call returns. In [visit_on_stack] each [self.visit(node)] takes a
    frame for [NodeVisitor.visit] and one for the method it dispatches to;
    [generic_visit] takes a third for [super().generic_visit(node)], which
    needs a fourth while it resumes [iter_fields]. The children are visited
    from the method's frame. A call that finds no frame raises
    [RecursionError], which is an [Exception]. *)
Definition RecursionError : exn := Exception overflow_msg.

Fixpoint visit_on_stack (frames : nat) (node : ast) (b : builder) {struct node}
  : result builder :=
  match node with
  | If condition_text body orelse =>
      if (2 <=? frames)%nat then
        match library (frames - 2)
                      (("Condition: " ++ condition_text)%string, "lightblue") with
        | Some e => Raise e
        | None => visit_If (visit_on_stack (frames - 2)) condition_text body orelse b
        end
      else Raise RecursionError
  | Return return_text =>
      if (2 <=? frames)%nat then
        match library (frames - 2) (return_text, "lightgreen") with
        | Some e => Raise e
        | None => visit_Return return_text b
        end
      else Raise RecursionError
  | Expr expr_text =>
      if (2 <=? frames)%nat then
        match library (frames - 2) (expr_text, "lightyellow") with
        | Some e => Raise e
        | None => generic_visit_Expr expr_text b
        end
      else Raise RecursionError
  | Other children =>
      if (4 <=? frames)%nat
      then visit_children (visit_on_stack (frames - 3)) children b
      else Raise RecursionError
  end.

(** [builder = DecisionTreeBuilder(); builder.visit(tree)] as
    [generate_decision_tree] runs it. *)
Definition build_on_stack (tree : ast) : result builder :=
  visit_on_stack stack tree init.

(** The library calls for the statement [st] return. *)
Definition returns (frames : nat) (st : string * string) : bool :=
  match library frames st with
  | None => true
  | Some _ => false
  end.

(** The visit of [node] stays within the limits: every call of the visitor
    finds a frame and every library call returns. *)
Fixpoint fits (frames : nat) (node : ast) : bool :=
  match node with
  | If test body orelse =>
      (2 <=? frames)%nat &&
      returns (frames - 2) (("Condition: " ++ test)%string, "lightblue") &&
      forallb (fits (frames - 2)) body && forallb (fits (frames - 2)) orelse
  | Return text =>
      (2 <=? frames)%nat && returns (frames - 2) (text, "lightgreen")
  | Expr text =>
      (2 <=? frames)%nat && returns (frames - 2) (text, "lightyellow")
  | Other children =>
      (4 <=? frames)%nat && forallb (fits (frames - 3)) children
  end.

(** The exceptions of the limits: the visitor's [RecursionError], and what
    a library call raises. *)
Definition limit (e : exn) : Prop :=
  e = RecursionError \/ exists k st, library k st = Some e.

(** The outcome [r] is the outcome [r'], unless a limit was met first. *)
Definition cut (r r' : result builder) : Prop :=
  r = r' \/ exists e, r = Raise e /\ limit e.

(** ** What the visitor emits *)

(** What a [Return] or an [Expr] emits: its node and, unless suppressed or
    without predecessor, the edge from the cursor. *)
Definition leaf_items (text fillcolor : string) (b : builder) : list item :=
  NodeStmt (node_id (node_counter b)) (fill text) fillcolor ::
  (match current_node b with
   | Some p => if negb (p =? "") && negb (suppress_edge b)
               then [EdgeStmt p (node_id (node_counter b)) None] else []
   | None => []
   end).

Definition after_leaf (text fillcolor : string) (b : builder) : builder :=
  mkBuilder (graph b ++ leaf_items text fillcolor b)
            (Some (node_id (node_counter b))) (S (node_counter b))
            (suppress_edge b).

(** The builder once [visit_If] has created the condition node, drawn the
    edge from its predecessor and moved the cursor (lines 24-31). *)
Definition entry_items (test : string) (b : builder) : list item :=
  NodeStmt (node_id (node_counter b)) (fill ("Condition: " ++ test)) "lightblue" ::
  (match current_node b with
   | Some p => if negb (p =? "")
               then [EdgeStmt p (node_id (node_counter b)) None] else []
   | None => []
   end).

Definition if_entry (test : string) (b : builder) : builder :=
  mkBuilder (graph b ++ entry_items test b)
            (Some (node_id (node_counter b))) (S (node_counter b))
            (suppress_edge b).

(** The edge a [Return] or an [Expr] draws from the cursor [cur] to its node
    [node_id n]. *)
Definition pred_edge (suppress : bool) (cur : option string) (n : nat) : list item :=
  match cur with
  | Some p => if negb (p =? "") && negb suppress
              then [EdgeStmt p (node_id n) None] else []
  | None => []
  end.

(** What the recognised statements [sts] emit one after the other, starting
    with cursor [cur] and counter [n], the flag [suppress] staying as it is. *)
Fixpoint chain_items (suppress : bool) (cur : option string) (n : nat)
         (sts : list (string * string)) : list item :=
  match sts with
  | [] => []
  | st :: rest =>
      NodeStmt (node_id n) (fill (fst st)) (snd st) ::
      pred_edge suppress cur n
      ++ chain_items suppress (Some (node_id n)) (S n) rest
  end.

(** The cursor and the builder after those statements. *)
Definition chain_cursor (cur : option string) (n : nat)
           (sts : list (string * string)) : option string :=
  match sts with
  | [] => cur
  | _ :: _ => Some (node_id (n + length sts - 1))
  end.

Definition after_chain (sts : list (string * string)) (b : builder) : builder :=
  mkBuilder
    (graph b ++ chain_items (suppress_edge b) (current_node b) (node_counter b) sts)
    (chain_cursor (current_node b) (node_counter b) sts)
    (node_counter b + length sts)
    (suppress_edge b).

(** The node of the [k]-th recognised statement, and the unlabelled edge
    from the [k]-th node to the next. *)
Definition statement_node (k : nat) (st : string * string) : item :=
  NodeStmt (node_id k) (fill (fst st)) (snd st).

Definition chain_edge (k : nat) : item :=
  EdgeStmt (node_id k) (node_id (S k)) None.

(** The node statements of the recognised statements [sts], numbered from
    [n]. *)
Definition numbered (n : nat) (sts : list (string * string)) : list item :=
  map (fun p => statement_node (fst p) (snd p)) (combine (seq n (length sts)) sts).

(** What a branch walk emits for the recognised statements [sts] when each
    is a statement of the branch: the node of each and the edge to it from
    the one before, [prev] at first, all with the label of the branch. *)
Fixpoint branch_items (label prev : string) (n : nat)
         (sts : list (string * string)) : list item :=
  match sts with
  | [] => []
  | st :: rest =>
      statement_node n st :: EdgeStmt prev (node_id n) (Some label) ::
      branch_items label (node_id n) (S n) rest
  end.

(** A call took the builder from [b] to [b'] emitting the nodes of [sts],
    numbered from the counter, and edges with the labels [label_ok] allows. *)
Definition traced (sts : list (string * string)) (b b' : builder) : Prop :=
  exists items,
    graph b' = graph b ++ items /\
    nodes items = numbered (node_counter b) sts /\
    node_counter b' = node_counter b + length sts /\
    Forall label_ok items.

(** What one successful visit emits, and that it leaves the flag off when
    it found it off. *)
Definition visit_traced (node : ast) : Prop :=
  forall b b', visit node b = Ok b' ->
    traced (reached node) b b' /\
    (suppress_edge b = false -> suppress_edge b' = false).

(** What one visit keeps, from any well-formed builder: the edges going
    forward. *)
Definition visit_forward (node : ast) : Prop :=
  forall b b', wf b -> forward b -> visit node b = Ok b' -> forward b'.

(** What one visit keeps of the labelled edges, and where it leaves the
    cursor when it moves it. *)
Definition visit_labels (node : ast) : Prop :=
  forall b b', wf b -> labels_enter_leaves b -> visit node b = Ok b' ->
    labels_enter_leaves b' /\
    (moves_cursor node = true ->
     exists s, current_node b' = Some s /\ leaf_node (graph b') s).

(** What one visit guarantees, from any well-formed builder. *)
Definition visit_ok (node : ast) : Prop :=
  forall b, wf b ->
    exists b' items, visit node b = Ok b' /\ grows (visit_tails b) b b' items.

(** ** The pipeline *)

Section Pipeline.
(** [ast.parse(code)] *)
Variable ast_parse : string -> result ast.
(** [builder.graph.render(output_file, cleanup=True)], which writes the image
    [output_file + ".png"] or raises. *)
Variable render : list item -> string -> result unit.

(** [generate_decision_tree]: the string it returns, and the calls it made
    to the renderer. *)
Definition generate_decision_tree (code output_file : string)
  : string * list (list item * string) :=
  match ast_parse code with
  | Raise e => (except_message e, [])
  | Ok tree =>
      match build_on_stack tree with
      | Raise e => (except_message e, [])
      | Ok builder =>
          match render (graph builder) output_file with
          | Raise e => (except_message e, [(graph builder, output_file)])
          | Ok _ => ((output_file ++ ".png")%string, [(graph builder, output_file)])
          end
      end
  end.

End Pipeline.

Section Main.
(** [ast.parse(code)] *)
Variable ast_parse : string -> result ast.
(** [builder.graph.render(output_file, cleanup=True)] *)
Variable render : list item -> string -> result unit.
(** [open(args.input_file, 'r')] followed by [f.read()] *)
Variable read_file : string -> read_result.

(** [main], from the parsed arguments [args.input_file] and [args.output]
    on: the lines it prints, and the calls made to the renderer. *)
Definition main (input_file output : string)
  : list string * list (list item * string) :=
  match read_file input_file with
  | Contents code =>
      let (output_path, calls) :=
        generate_decision_tree ast_parse render code output in
      ([("Decision tree generated: " ++ output_path)%string], calls)
  | FileNotFoundError =>
      ([("Error: File " ++ input_file ++ " not found.")%string], [])
  | ReadError msg => ([("Error: " ++ msg)%string], [])
  end.

End Main.

(** * Part II: properties *)

(** ** Node names *)

Lemma node_id_inj (n m : nat) : node_id n = node_id m -> n = m.
Proof.
  unfold node_id. intros H.
  assert (E : NilEmpty.string_of_uint (Nat.to_uint n)
              = NilEmpty.string_of_uint (Nat.to_uint m)).
  { simpl in H. now inversion H. }
  apply (f_equal NilEmpty.uint_of_string) in E.
  rewrite !NilEmpty.usu in E. inversion E as [E'].
  apply (f_equal Nat.of_uint) in E'.
  now rewrite !Unsigned.of_to in E'.
Qed.

Lemma ne_refl (a : option string) : ne a a = false.
Proof. destruct a as [s|]; simpl; [now rewrite String.eqb_refl | reflexivity]. Qed.

Lemma ne_true (a b : option string) : a <> b -> ne a b = true.
Proof.
  destruct a as [x|], b as [y|]; simpl; intros H; try reflexivity; try congruence.
  destruct (String.eqb_spec x y); [congruence | reflexivity].
Qed.

Lemma created_mono (lo hi lo' hi' : nat) (s : string) :
  lo' <= lo -> hi <= hi' -> created lo hi s -> created lo' hi' s.
Proof. intros ? ? (j & ? & ->). exists j. split; [lia | reflexivity]. Qed.

Lemma created_apart (lo hi lo' hi' : nat) (s : string) :
  hi <= lo' -> created lo hi s -> created lo' hi' s -> False.
Proof.
  intros ? (j & ? & ->) (k & ? & E). apply node_id_inj in E. lia.
Qed.

Lemma created_node_id (lo hi n : nat) : created lo hi (node_id n) <-> lo <= n < hi.
Proof.
  split.
  - intros (j & ? & E). apply node_id_inj in E. lia.
  - intros ?. now exists n.
Qed.

Lemma node_names_app (xs ys : list item) :
  node_names (xs ++ ys) = node_names xs ++ node_names ys.
Proof. unfold node_names. apply flat_map_app. Qed.

Lemma seq_split (lo mid hi : nat) :
  lo <= mid -> mid <= hi ->
  seq lo (hi - lo) = seq lo (mid - lo) ++ seq mid (hi - mid).
Proof.
  intros ? ?. replace (hi - lo) with ((mid - lo) + (hi - mid)) by lia.
  rewrite seq_app. repeat f_equal. lia.
Qed.

(** ** How the graph grows *)

Section Grows.
Variable tails : option string -> string -> Prop.

Lemma grows_nil (b b' : builder) :
  graph b' = graph b -> node_counter b' = node_counter b ->
  current_node b' = current_node b -> grows tails b b' [].
Proof.
  intros Hg Hc Hn. constructor.
  - now rewrite app_nil_r.
  - lia.
  - now rewrite Hc, Nat.sub_diag.
  - intros i [].
  - now left.
Qed.

Lemma grows_trans (tails' : option string -> string -> Prop)
      (b b1 b2 : builder) (xs ys : list item) :
  grows tails b b1 xs -> grows tails' b1 b2 ys ->
  (forall l t, tails' l t ->
               tails l t \/ created (node_counter b) (node_counter b1) t) ->
  grows tails b b2 (xs ++ ys).
Proof.
  intros [G1 C1 N1 E1 K1] [G2 C2 N2 E2 K2] HT. constructor.
  - now rewrite G2, G1, app_assoc.
  - lia.
  - rewrite node_names_app, N1, N2, <- map_app. f_equal.
    symmetry. now apply seq_split.
  - intros i Hi. apply in_app_or in Hi. destruct Hi as [Hi|Hi].
    + specialize (E1 i Hi). destruct i as [| |t h l]; auto.
      destruct E1 as [Hh Ht]. split.
      * eapply created_mono; [| |exact Hh]; lia.
      * destruct Ht as [Ht|Ht]; [now left | right].
        eapply created_mono; [| |exact Ht]; lia.
    + specialize (E2 i Hi). destruct i as [| |t h l]; auto.
      destruct E2 as [Hh Ht]. split.
      * eapply created_mono; [| |exact Hh]; lia.
      * destruct Ht as [Ht|Ht].
        -- destruct (HT _ _ Ht) as [Ht'|Ht']; [now left | right].
           eapply created_mono; [| |exact Ht']; lia.
        -- right. eapply created_mono; [| |exact Ht]; lia.
  - destruct K2 as [K2|(s & Hs & K2)].
    + rewrite K2. destruct K1 as [K1|(s & Hs & K1)]; [now left | right].
      exists s. split; [|exact K1]. eapply created_mono; [| |exact Hs]; lia.
    + right. exists s. split; [|exact K2].
      eapply created_mono; [| |exact Hs]; lia.
Qed.

Lemma grows_snoc_edge (b b1 : builder) (xs : list item)
      (t h : string) (l : option string) :
  grows tails b b1 xs ->
  created (node_counter b) (node_counter b1) h ->
  tails l t \/ created (node_counter b) (node_counter b1) t ->
  grows tails b (emit (EdgeStmt t h l) b1) (xs ++ [EdgeStmt t h l]).
Proof.
  intros [G1 C1 N1 E1 K1] Hh Ht. constructor; simpl.
  - now rewrite G1, app_assoc.
  - exact C1.
  - rewrite node_names_app, N1. simpl. now rewrite app_nil_r.
  - intros i Hi. apply in_app_or in Hi. destruct Hi as [Hi|[<-|[]]].
    + now apply E1.
    + now split.
  - exact K1.
Qed.

Lemma grows_set_current (b b1 : builder) (xs : list item) (c : option string) :
  grows tails b b1 xs ->
  (c = current_node b \/
   exists s, created (node_counter b) (node_counter b1) s /\ c = Some s) ->
  grows tails b (set_current_node c b1) xs.
Proof. intros [G1 C1 N1 E1 K1] Hc. now constructor. Qed.

Lemma grows_set_suppress (b b1 : builder) (xs : list item) (f : bool) :
  grows tails b b1 xs -> grows tails b (set_suppress_edge f b1) xs.
Proof. intros [G1 C1 N1 E1 K1]. now constructor. Qed.

Lemma grows_from_suppress (b b1 : builder) (xs : list item) (f : bool) :
  grows tails (set_suppress_edge f b) b1 xs -> grows tails b b1 xs.
Proof. intros [G1 C1 N1 E1 K1]. now constructor. Qed.

Lemma grows_weaken (tails' : option string -> string -> Prop)
      (b b' : builder) (xs : list item) :
  grows tails' b b' xs ->
  (forall l t, tails' l t -> tails l t) -> grows tails b b' xs.
Proof.
  intros [G1 C1 N1 E1 K1] HT. constructor; auto.
  intros i Hi. specialize (E1 i Hi). destruct i as [| |t h l]; auto.
  destruct E1 as [Hh [Ht|Ht]]; auto.
Qed.

Lemma grows_wf (b b' : builder) (xs : list item) :
  wf b -> grows tails b b' xs ->
  (forall l t, tails l t -> created 0 (node_counter b) t) -> wf b'.
Proof.
  intros [Wc We] [G1 C1 N1 E1 K1] HT. constructor.
  - intros s Hs. destruct K1 as [K1|(s' & Hs' & K1)].
    + rewrite K1 in Hs. eapply created_mono; [| |exact (Wc s Hs)]; lia.
    + rewrite K1 in Hs. inversion Hs; subst s'.
      eapply created_mono; [| |exact Hs']; lia.
  - intros t h l Hi. rewrite G1 in Hi. apply in_app_or in Hi.
    destruct Hi as [Hi|Hi].
    + destruct (We _ _ _ Hi) as [Ht Hh].
      split; (eapply created_mono; [| |eassumption]; lia).
    + destruct (E1 _ Hi) as [Hh Ht]. split.
      * destruct Ht as [Ht|Ht].
        -- eapply created_mono; [| |exact (HT _ _ Ht)]; lia.
        -- eapply created_mono; [| |exact Ht]; lia.
      * eapply created_mono; [| |exact Hh]; lia.
Qed.
End Grows.

Lemma wf_set_suppress (f : bool) (b : builder) : wf b -> wf (set_suppress_edge f b).
Proof. intros [Wc We]. now constructor. Qed.

Lemma wf_init : wf init.
Proof.
  constructor; simpl.
  - discriminate.
  - intros t h l [H|[]]. discriminate.
Qed.

Lemma is_created_sound (lo hi : nat) (s : string) :
  is_created lo hi s = true -> created lo hi s.
Proof.
  unfold is_created. intros H. apply existsb_exists in H.
  destruct H as (j & Hj & E). apply in_seq in Hj. apply String.eqb_eq in E.
  exists j. split; [lia | exact E].
Qed.

Lemma wfb_sound (b : builder) : wfb b = true -> wf b.
Proof.
  unfold wfb. intros H. apply andb_true_iff in H. destruct H as [Hc He].
  constructor.
  - intros s Hs. rewrite Hs in Hc. now apply is_created_sound.
  - intros t h l Hi. rewrite forallb_forall in He. specialize (He _ Hi).
    apply andb_true_iff in He. destruct He as [Ht Hh].
    split; now apply is_created_sound.
Qed.

(** ** With a frame for every call, the visitor keeps the invariants and returns *)

Lemma visit_Return_eq (text : string) (b : builder) :
  visit_Return text b = Ok (after_leaf text "lightgreen" b).
Proof.
  unfold visit_Return, after_leaf, leaf_items, create_node, emit; simpl.
  destruct (current_node b) as [p|]; simpl.
  - destruct (negb (p =? "") && negb (suppress_edge b)); simpl;
      unfold set_current_node, emit; simpl; now rewrite <- ?app_assoc.
  - reflexivity.
Qed.

Lemma generic_visit_Expr_eq (text : string) (b : builder) :
  generic_visit_Expr text b = Ok (after_leaf text "lightyellow" b).
Proof.
  unfold generic_visit_Expr, after_leaf, leaf_items, create_node, emit; simpl.
  destruct (current_node b) as [p|]; simpl.
  - destruct (negb (p =? "") && negb (suppress_edge b)); simpl;
      unfold set_current_node, emit; simpl; now rewrite <- ?app_assoc.
  - reflexivity.
Qed.

Lemma created_last (n : nat) : created n (S n) (node_id n).
Proof. exists n. split; [lia | reflexivity]. Qed.

Lemma leaf_grows (text fillcolor : string) (b : builder) :
  grows (visit_tails b) b (after_leaf text fillcolor b)
        (leaf_items text fillcolor b).
Proof.
  constructor.
  - reflexivity.
  - simpl. lia.
  - change (node_counter (after_leaf text fillcolor b)) with (S (node_counter b)).
    replace (S (node_counter b) - node_counter b) with 1 by lia.
    unfold leaf_items. simpl.
    destruct (current_node b) as [p|]; simpl; [|reflexivity].
    now destruct (negb (p =? "") && negb (suppress_edge b)).
  - unfold leaf_items. intros i [<-|Hi]; [exact I|].
    destruct (current_node b) as [p|] eqn:Ec; [|destruct Hi].
    destruct (negb (p =? "") && negb (suppress_edge b)); [|destruct Hi].
    destruct Hi as [<-|[]]. split; [apply created_last|].
    left. now split.
  - right. exists (node_id (node_counter b)). split; [apply created_last | reflexivity].
Qed.

Lemma visit_If_eq (test : string) (body orelse : list ast) (b : builder) :
  visit (If test body orelse) b =
  (let condition_node := node_id (node_counter b) in
   b1 <- branch_walk visit condition_node "True" body None
           (if_entry test b) ;;
   b2 <- branch_walk visit condition_node "False" orelse None
           (set_current_node (Some condition_node) b1) ;;
   Ok (set_current_node (current_node b) b2)).
Proof.
  simpl. unfold visit_If, if_entry, entry_items, create_node, emit; simpl.
  destruct (current_node b) as [p|]; simpl; [|reflexivity].
  destruct (negb (p =? "")); simpl; unfold set_current_node, emit; simpl;
    now rewrite <- ?app_assoc.
Qed.

Lemma entry_grows (test : string) (b : builder) :
  grows (visit_tails b) b (if_entry test b) (entry_items test b).
Proof.
  constructor.
  - reflexivity.
  - simpl. lia.
  - change (node_counter (if_entry test b)) with (S (node_counter b)).
    replace (S (node_counter b) - node_counter b) with 1 by lia.
    unfold entry_items. simpl.
    destruct (current_node b) as [p|]; simpl; [|reflexivity].
    now destruct (negb (p =? "")).
  - unfold entry_items. intros i [<-|Hi]; [exact I|].
    destruct (current_node b) as [p|] eqn:Ec; [|destruct Hi].
    destruct (negb (p =? "")); [|destruct Hi].
    destruct Hi as [<-|[]]. split; [apply created_last|].
    left. now split.
  - right. exists (node_id (node_counter b)). split; [apply created_last | reflexivity].
Qed.

Lemma visit_tails_created (b : builder) (l : option string) (t : string) :
  wf b -> visit_tails b l t -> created 0 (node_counter b) t.
Proof. intros [Wc _] [Hc _]. now apply Wc. Qed.

Lemma walk_tails_created (c label : string) (b : builder)
      (l : option string) (t : string) :
  wf b -> created 0 (node_counter b) c ->
  walk_tails c label b l t -> created 0 (node_counter b) t.
Proof. intros [Wc _] Hc [[Ht _]|[-> _]]; [now apply Wc | exact Hc]. Qed.

Lemma visit_children_grows (children : list ast) :
  Forall visit_ok children ->
  forall b, wf b ->
    exists b' items, visit_children visit children b = Ok b' /\
                     grows (visit_tails b) b b' items.
Proof.
  induction 1 as [|child rest Hc _ IH]; intros b Hb; simpl.
  - exists b, []. split; [reflexivity | now apply grows_nil].
  - destruct (Hc b Hb) as (b1 & xs & E1 & G1). rewrite E1. simpl.
    assert (Hb1 : wf b1).
    { eapply grows_wf; [exact Hb | exact G1 |].
      intros l t. now apply visit_tails_created. }
    destruct (IH b1 Hb1) as (b2 & ys & E2 & G2).
    exists b2, (xs ++ ys). split; [exact E2|].
    eapply grows_trans; [exact G1 | exact G2 |].
    intros l t [Ht ->]. destruct (grows_cursor _ _ _ _ G1) as [K|(s & Hs & K)].
    + left. split; [congruence | reflexivity].
    + right. rewrite K in Ht. now inversion Ht; subst.
Qed.

Lemma branch_walk_grows (c label : string) (stmts : list ast) :
  Forall visit_ok stmts ->
  forall branch b p, wf b -> current_node b = Some p ->
    created 0 (node_counter b) c ->
    exists b' items,
      branch_walk visit c label stmts branch b = Ok b' /\
      grows (walk_tails c label b) b b' items.
Proof.
  induction 1 as [|stmt rest Hs _ IH]; intros branch b p Hb Hp Hc; simpl.
  - exists b, []. split; [reflexivity | now apply grows_nil].
  - destruct (Hs _ (wf_set_suppress true b Hb)) as (b1 & xs & E1 & G1).
    rewrite E1. simpl.
    apply grows_from_suppress in G1.
    change (visit_tails (set_suppress_edge true b)) with (visit_tails b) in G1.
    assert (G1' : grows (walk_tails c label b) b (set_suppress_edge false b1) xs).
    { apply grows_set_suppress.
      apply (grows_weaken _ (visit_tails b)); [exact G1|].
      intros l t [Ht ->]. left. split; [exact Ht | now left]. }
    clear E1. pose proof (grows_counter _ _ _ _ G1) as Hn.
    destruct (grows_cursor _ _ _ _ G1) as [K|(s & Hs' & K)]; simpl in K.
    + (* the statement left the cursor where it was *)
      rewrite K, ne_refl. simpl.
      assert (Hb1 : wf (set_suppress_edge false b1)).
      { eapply grows_wf; [exact Hb | exact G1' |].
        intros l t. now apply walk_tails_created. }
      destruct (IH branch (set_suppress_edge false b1) p Hb1) as (b2 & ys & E2 & G2).
      { simpl. congruence. }
      { simpl. eapply created_mono; [| |exact Hc]; lia. }
      exists b2, (xs ++ ys). split; [exact E2|].
      eapply grows_trans; [exact G1' | exact G2 |].
      intros l t [[Ht Hl]|[-> Hl]].
      * left. left. split; [simpl in Ht; congruence | exact Hl].
      * left. now right.
    + (* the statement moved the cursor to a node [s] of its own *)
      simpl in Hs'. rewrite K, Hp.
      assert (Hsp : ne (Some s) (Some p) = true).
      { apply ne_true. intros Heq. inversion Heq; subst s.
        eapply created_apart; [| apply (wf_cursor b Hb p Hp) | exact Hs']. lia. }
      rewrite Hsp. simpl.
      set (tl := if is_None branch then c else p).
      set (br := if is_None branch then Some s else branch).
      set (b2 := emit (EdgeStmt tl s (Some label)) (set_suppress_edge false b1)).
      assert (G2 : grows (walk_tails c label b) b b2 (xs ++ [EdgeStmt tl s (Some label)])).
      { apply grows_snoc_edge; [exact G1' | exact Hs' |].
        left. unfold tl. destruct (is_None branch).
        - now right.
        - left. split; [exact Hp | now right]. }
      assert (Hb2 : wf b2).
      { eapply grows_wf; [exact Hb | exact G2 |].
        intros l t. now apply walk_tails_created. }
      destruct (IH br b2 s Hb2) as (b3 & ys & E3 & G3).
      { simpl. exact K. }
      { simpl. eapply created_mono; [| |exact Hc]; lia. }
      exists b3, ((xs ++ [EdgeStmt tl s (Some label)]) ++ ys).
      split.
      * unfold tl, br, b2 in *. destruct (is_None branch); simpl; exact E3.
      * eapply grows_trans; [exact G2 | exact G3 |].
        intros l t [[Ht Hl]|[-> Hl]].
        -- right. simpl in Ht. rewrite K in Ht. inversion Ht; subst t. exact Hs'.
        -- left. now right.
Qed.

Lemma wf_set_current (c : option string) (b : builder) :
  wf b -> (forall s, c = Some s -> created 0 (node_counter b) s) ->
  wf (set_current_node c b).
Proof. intros [Wc We] Hc. now constructor. Qed.

Lemma walk_tails_entry (c label : string) (b : builder) (lo : nat)
      (l : option string) (t : string) :
  current_node b = Some c -> created lo (node_counter b) c ->
  walk_tails c label b l t -> created lo (node_counter b) t.
Proof.
  intros Hc Hcr [[Ht _]|[-> _]]; [|exact Hcr].
  rewrite Hc in Ht. now inversion Ht; subst.
Qed.

(** One [visit_If], cut at the two branch walks. *)
Lemma visit_If_grows (test : string) (body orelse : list ast) :
  Forall visit_ok body -> Forall visit_ok orelse ->
  forall b, wf b ->
    let c := node_id (node_counter b) in
    exists b1 b2 xs ys,
      branch_walk visit c "True" body None (if_entry test b) = Ok b1 /\
      branch_walk visit c "False" orelse None
                  (set_current_node (Some c) b1) = Ok b2 /\
      visit (If test body orelse) b = Ok (set_current_node (current_node b) b2) /\
      wf (if_entry test b) /\
      grows (walk_tails c "True" (if_entry test b)) (if_entry test b) b1 xs /\
      wf (set_current_node (Some c) b1) /\
      grows (walk_tails c "False" (set_current_node (Some c) b1))
            (set_current_node (Some c) b1) b2 ys /\
      grows (visit_tails b) b (set_current_node (current_node b) b2)
            ((entry_items test b ++ xs) ++ ys).
Proof.
  intros Hbody Horelse b Hb c.
  pose proof (entry_grows test b) as G0.
  assert (Hc0 : created 0 (node_counter (if_entry test b)) c).
  { exists (node_counter b). simpl. split; [lia | reflexivity]. }
  assert (He : wf (if_entry test b)).
  { eapply grows_wf; [exact Hb | exact G0 |].
    intros l t. now apply visit_tails_created. }
  destruct (branch_walk_grows c "True" body Hbody None (if_entry test b) c He)
    as (b1 & xs & E1 & G1); [reflexivity | exact Hc0 |].
  pose proof (grows_counter _ _ _ _ G1) as Hn1. simpl in Hn1.
  assert (Hb1 : wf b1).
  { eapply grows_wf; [exact He | exact G1 |].
    intros l t. now apply walk_tails_created. }
  assert (He2 : wf (set_current_node (Some c) b1)).
  { apply wf_set_current; [exact Hb1|].
    intros s Hs. inversion Hs; subst s.
    exists (node_counter b). split; [lia | reflexivity]. }
  destruct (branch_walk_grows c "False" orelse Horelse None
              (set_current_node (Some c) b1) c He2)
    as (b2 & ys & E2 & G2); [reflexivity | |].
  { exists (node_counter b). simpl. split; [lia | reflexivity]. }
  exists b1, b2, xs, ys.
  split; [exact E1|]. split; [exact E2|].
  split; [rewrite visit_If_eq; cbv zeta; fold c; rewrite E1; simpl; rewrite E2;
          reflexivity|].
  split; [exact He|]. split; [exact G1|]. split; [exact He2|]. split; [exact G2|].
  apply grows_set_current; [|now left].
  eapply grows_trans; [| exact G2 |].
  - apply (grows_set_current _ _ b1 _ (Some c)).
    + eapply grows_trans; [exact G0 | exact G1 |].
      intros l t Ht. right.
      apply (walk_tails_entry c "True" (if_entry test b) (node_counter b) l t);
        [reflexivity | apply created_last | exact Ht].
    + right. exists c. split; [|reflexivity].
      exists (node_counter b). split; [lia | reflexivity].
  - intros l t Ht. right.
    apply (walk_tails_entry c "False" (set_current_node (Some c) b1)
                            (node_counter b) l t); [reflexivity | | exact Ht].
    exists (node_counter b). simpl. split; [lia | reflexivity].
Qed.

Lemma visit_grows (node : ast) : visit_ok node.
Proof.
  induction node as [test body orelse Hbody Horelse|text|text|children Hch]
    using ast_ind; intros b Hb.
  - destruct (visit_If_grows test body orelse Hbody Horelse b Hb)
      as (b1 & b2 & xs & ys & _ & _ & E & _ & _ & _ & _ & G).
    eexists _, _. split; [exact E | exact G].
  - exists (after_leaf text "lightgreen" b), (leaf_items text "lightgreen" b).
    split; [apply visit_Return_eq | apply leaf_grows].
  - exists (after_leaf text "lightyellow" b), (leaf_items text "lightyellow" b).
    split; [apply generic_visit_Expr_eq | apply leaf_grows].
  - now apply visit_children_grows.
Qed.

Lemma all_visit_ok (stmts : list ast) : Forall visit_ok stmts.
Proof. apply Forall_forall. intros s _. apply visit_grows. Qed.

Lemma visit_wf (node : ast) (b b' : builder) :
  wf b -> visit node b = Ok b' -> wf b'.
Proof.
  intros Hb E. destruct (visit_grows node b Hb) as (b2 & xs & E2 & G).
  rewrite E in E2. inversion E2; subst b2.
  eapply grows_wf; [exact Hb | exact G |].
  intros l t. now apply visit_tails_created.
Qed.

Lemma visit_emits (node : ast) (b b' : builder) :
  wf b -> visit node b = Ok b' ->
  exists items, grows (visit_tails b) b b' items.
Proof.
  intros Hb E. destruct (visit_grows node b Hb) as (b2 & xs & E2 & G).
  rewrite E in E2. inversion E2; subst b2. now exists xs.
Qed.

Lemma branch_walk_emits (c label : string) (stmts : list ast)
      (branch : option string) (b b' : builder) (p : string) :
  wf b -> current_node b = Some p -> created 0 (node_counter b) c ->
  branch_walk visit c label stmts branch b = Ok b' ->
  exists items, grows (walk_tails c label b) b b' items.
Proof.
  intros Hb Hp Hc E.
  destruct (branch_walk_grows c label stmts (all_visit_ok stmts) branch b p Hb Hp Hc)
    as (b2 & xs & E2 & G).
  rewrite E in E2. inversion E2; subst b2. now exists xs.
Qed.

(** ** Node names are the counter values, in creation order *)

Lemma node_names_fresh (node : ast) (b b' : builder) :
  wf b -> visit node b = Ok b' ->
  node_counter b <= node_counter b' /\
  node_names (graph b')
  = node_names (graph b)
    ++ map node_id (seq (node_counter b) (node_counter b' - node_counter b)).
Proof.
  intros Hb E. destruct (visit_emits node b b' Hb E) as (xs & G).
  split; [exact (grows_counter _ _ _ _ G)|].
  now rewrite (grows_graph _ _ _ _ G), node_names_app, (grows_nodes _ _ _ _ G).
Qed.

Lemma NoDup_node_ids (lo len : nat) : NoDup (map node_id (seq lo len)).
Proof.
  apply Injective_map_NoDup; [|apply seq_NoDup].
  intros n m. apply node_id_inj.
Qed.

(** C7: within one build the k-th node created is named [node_id k], the
    names following the counter 0, 1, 2, ... in creation order, and no name
    occurs twice. *)
Theorem node_ids_increasing_and_unique (tree : ast) :
  exists b,
    build tree = Ok b /\
    node_names (graph b) = map node_id (seq 0 (node_counter b)) /\
    NoDup (node_names (graph b)) /\
    (forall i j s, nth_error (node_names (graph b)) i = Some s ->
                   nth_error (node_names (graph b)) j = Some s -> i = j).
Proof.
  destruct (visit_grows tree init wf_init) as (b & xs & E & G).
  assert (N : node_names (graph b) = map node_id (seq 0 (node_counter b))).
  { destruct (node_names_fresh tree init b wf_init E) as [_ N].
    simpl in N. now rewrite Nat.sub_0_r in N. }
  exists b. split; [exact E|]. split; [exact N|].
  assert (D : NoDup (node_names (graph b))) by (rewrite N; apply NoDup_node_ids).
  split; [exact D|].
  intros i j s Hi Hj.
  apply (proj1 (NoDup_nth_error (node_names (graph b))) D).
  - apply nth_error_Some. congruence.
  - congruence.
Qed.

(** ** Trees without conditionals *)

Lemma chain_items_app (s : bool) (xs ys : list (string * string)) :
  forall cur n,
    chain_items s cur n (xs ++ ys)
    = chain_items s cur n xs
      ++ chain_items s (chain_cursor cur n xs) (n + length xs) ys.
Proof.
  induction xs as [|x xs IH]; intros cur n; simpl.
  - now rewrite Nat.add_0_r.
  - rewrite IH, <- app_assoc. do 3 f_equal.
    replace (S n + length xs) with (n + S (length xs)) by lia.
    f_equal. destruct xs as [|x' xs]; simpl; do 2 f_equal; lia.
Qed.

Lemma chain_cursor_app (xs ys : list (string * string)) (cur : option string) (n : nat) :
  chain_cursor (chain_cursor cur n xs) (n + length xs) ys = chain_cursor cur n (xs ++ ys).
Proof.
  destruct ys as [|y ys]; simpl.
  - now rewrite app_nil_r.
  - destruct xs as [|x xs]; simpl.
    + do 2 f_equal. lia.
    + rewrite length_app. simpl. do 2 f_equal. lia.
Qed.

Lemma after_chain_app (xs ys : list (string * string)) (b : builder) :
  after_chain (xs ++ ys) b = after_chain ys (after_chain xs b).
Proof.
  unfold after_chain; simpl.
  rewrite chain_items_app, chain_cursor_app, length_app, <- app_assoc.
  f_equal. lia.
Qed.

Lemma after_chain_nil (b : builder) : after_chain [] b = b.
Proof.
  destruct b as [g c n s]. unfold after_chain; simpl.
  now rewrite app_nil_r, Nat.add_0_r.
Qed.

Lemma after_leaf_chain (text fillcolor : string) (b : builder) :
  after_leaf text fillcolor b = after_chain [(text, fillcolor)] b.
Proof.
  unfold after_leaf, after_chain, leaf_items; simpl.
  rewrite app_nil_r. f_equal; [do 2 f_equal; lia | lia].
Qed.

Lemma visit_children_no_If (children : list ast) :
  Forall (fun node => no_If node = true ->
                      forall b, visit node b = Ok (after_chain (statements node) b))
         children ->
  forallb no_If children = true ->
  forall b, visit_children visit children b
            = Ok (after_chain (flat_map statements children) b).
Proof.
  induction 1 as [|child rest Hc _ IH]; simpl; intros Hn b.
  - now rewrite after_chain_nil.
  - apply andb_true_iff in Hn. destruct Hn as [Hn1 Hn2].
    rewrite (Hc Hn1 b). simpl. rewrite (IH Hn2). now rewrite after_chain_app.
Qed.

(** A tree without conditionals is visited as the chain of its recognised
    statements, whatever the flag. *)
Lemma visit_no_If (node : ast) :
  no_If node = true ->
  forall b, visit node b = Ok (after_chain (statements node) b).
Proof.
  induction node as [test body orelse _ _|text|text|children Hch] using ast_ind;
    intros Hn b.
  - discriminate.
  - change (visit (Return text) b) with (visit_Return text b).
    rewrite visit_Return_eq. now rewrite after_leaf_chain.
  - change (visit (Expr text) b) with (generic_visit_Expr text b).
    rewrite generic_visit_Expr_eq. now rewrite after_leaf_chain.
  - exact (visit_children_no_If children Hch Hn b).
Qed.

Lemma nodes_app (xs ys : list item) : nodes (xs ++ ys) = nodes xs ++ nodes ys.
Proof. apply filter_app. Qed.

Lemma edges_app (xs ys : list item) : edges (xs ++ ys) = edges xs ++ edges ys.
Proof. apply filter_app. Qed.

Lemma nodes_pred_edge (s : bool) (cur : option string) (n : nat) :
  nodes (pred_edge s cur n) = [].
Proof.
  unfold pred_edge. destruct cur as [p|]; [|reflexivity].
  now destruct (negb (p =? "") && negb s).
Qed.

Lemma edges_pred_edge (s : bool) (cur : option string) (n : nat) :
  edges (pred_edge s cur n) = pred_edge s cur n.
Proof.
  unfold pred_edge. destruct cur as [p|]; [|reflexivity].
  now destruct (negb (p =? "") && negb s).
Qed.

Lemma nodes_chain (s : bool) (sts : list (string * string)) :
  forall cur n,
    nodes (chain_items s cur n sts)
    = map (fun p => statement_node (fst p) (snd p)) (combine (seq n (length sts)) sts).
Proof.
  induction sts as [|st sts IH]; intros cur n; [reflexivity|].
  cbn [chain_items length seq combine map fst snd].
  change (nodes (?x :: ?l)) with (if is_node x then x :: nodes l else nodes l).
  cbn [is_node]. rewrite nodes_app, nodes_pred_edge, IH. reflexivity.
Qed.

Lemma edges_chain (sts : list (string * string)) :
  forall cur n,
    edges (chain_items false cur n sts)
    = match sts with
      | [] => []
      | _ :: _ => pred_edge false cur n ++ map chain_edge (seq n (length sts - 1))
      end.
Proof.
  induction sts as [|st sts IH]; intros cur n; [reflexivity|].
  cbn [chain_items].
  change (edges (?x :: ?l)) with (if is_edge x then x :: edges l else edges l).
  cbn [is_edge]. rewrite edges_app, edges_pred_edge, IH. f_equal.
  destruct sts as [|st' sts]; [reflexivity|].
  cbn [length]. rewrite !Nat.sub_succ, !Nat.sub_0_r. reflexivity.
Qed.

(** C3: a tree without conditionals (the [Module] of such a program) builds
    the chain of its N recognised statements: one node per statement, in
    source order, and the N-1 unlabelled edges from each node to the next. *)
Theorem no_conditional_single_chain (tree : ast) :
  no_If tree = true ->
  exists b,
    build tree = Ok b /\
    nodes (graph b)
    = map (fun p => statement_node (fst p) (snd p))
          (combine (seq 0 (length (statements tree))) (statements tree)) /\
    length (nodes (graph b)) = length (statements tree) /\
    edges (graph b) = map chain_edge (seq 0 (length (statements tree) - 1)) /\
    length (edges (graph b)) = length (statements tree) - 1.
Proof.
  intros Hn. exists (after_chain (statements tree) init).
  split; [exact (visit_no_If tree Hn init)|].
  assert (Hnodes : nodes (graph (after_chain (statements tree) init))
                   = map (fun p => statement_node (fst p) (snd p))
                         (combine (seq 0 (length (statements tree))) (statements tree))).
  { unfold after_chain. cbn [graph]. rewrite nodes_app.
    change (nodes (graph init)) with (@nil item). apply nodes_chain. }
  assert (Hedges : edges (graph (after_chain (statements tree) init))
                   = map chain_edge (seq 0 (length (statements tree) - 1))).
  { unfold after_chain. cbn [graph]. rewrite edges_app.
    change (edges (graph init)) with (@nil item).
    change (suppress_edge init) with false. change (current_node init) with (@None string).
    rewrite edges_chain. now destruct (statements tree). }
  split; [exact Hnodes|]. split.
  - rewrite Hnodes, length_map, length_combine, length_seq. lia.
  - split; [exact Hedges|]. now rewrite Hedges, length_map, length_seq.
Qed.

(** C5, as the code has it: [if x > 0: return 1 else: return -1] builds
    three nodes, the condition node with the label "Condition: x > 0" and the
    two return nodes, and the two edges from the condition node, "True" to
    [return 1] and "False" to [return -1]. *)
Theorem scenario_if_else :
  exists b,
    build (Other [If "x > 0" [Return "return 1"] [Return "return -1"]]) = Ok b /\
    nodes (graph b)
    = [NodeStmt "node_0" (fill "Condition: x > 0") "lightblue";
       NodeStmt "node_1" (fill "return 1") "lightgreen";
       NodeStmt "node_2" (fill "return -1") "lightgreen"] /\
    edges (graph b)
    = [EdgeStmt "node_0" "node_1" (Some "True");
       EdgeStmt "node_0" "node_2" (Some "False")].
Proof. eexists. split; [reflexivity|]. split; reflexivity. Qed.

(** ** Edges into and out of a node *)

Lemma filter_none {A : Type} (f : A -> bool) (l : list A) :
  (forall x, In x l -> f x = false) -> filter f l = [].
Proof.
  induction l as [|x l IH]; intros H; [reflexivity|]. simpl.
  rewrite (H x (or_introl eq_refl)). apply IH. intros y Hy. apply H. now right.
Qed.

Lemma node_id_truthy (s : string) (lo hi : nat) :
  created lo hi s -> negb (s =? "") = true.
Proof. intros (j & _ & ->). reflexivity. Qed.

Lemma enters_fresh (tails : option string -> string -> Prop)
      (b b' : builder) (items : list item) (n : nat) :
  grows tails b b' items -> n < node_counter b ->
  filter (enters (node_id n)) items = [].
Proof.
  intros G Hn. apply filter_none. intros i Hi.
  pose proof (grows_edges _ _ _ _ G i Hi) as E.
  destruct i as [| |t h l]; try reflexivity. destruct E as [Hh _].
  simpl. destruct (String.eqb_spec h (node_id n)) as [->|]; [|reflexivity].
  apply created_node_id in Hh. lia.
Qed.

Lemma enters_old (b : builder) (n : nat) :
  wf b -> node_counter b <= n -> filter (enters (node_id n)) (graph b) = [].
Proof.
  intros Hb Hn. apply filter_none. intros i Hi.
  destruct i as [| |t h l]; try reflexivity.
  destruct (wf_edges b Hb t h l Hi) as [_ Hh].
  simpl. destruct (String.eqb_spec h (node_id n)) as [->|]; [|reflexivity].
  apply created_node_id in Hh. lia.
Qed.

Lemma leaves_old (b : builder) (n : nat) (l : option string) :
  wf b -> node_counter b <= n -> filter (leaves (node_id n) l) (graph b) = [].
Proof.
  intros Hb Hn. apply filter_none. intros i Hi.
  destruct i as [| |t h l']; try reflexivity.
  destruct (wf_edges b Hb t h l' Hi) as [Ht _].
  simpl. destruct (String.eqb_spec t (node_id n)) as [->|]; [|reflexivity].
  apply created_node_id in Ht. lia.
Qed.

(** ** C6: the cursor after a conditional *)

(** C6: a conditional leaves the cursor where it found it. A statement
    visited next therefore draws its edges from that predecessor or from its
    own nodes, and never from a node created inside the conditional: this
    holds for a visit, for a [Return] in particular, and for the rest of a
    branch walk around the conditional. *)
Theorem cursor_restored_after_If (test : string) (body orelse : list ast)
        (b : builder) :
  wf b ->
  exists b1,
    visit (If test body orelse) b = Ok b1 /\
    current_node b1 = current_node b /\
    (forall next f b2 items,
        visit next (set_suppress_edge f b1) = Ok b2 ->
        graph b2 = graph b1 ++ items ->
        forall t h l, In (EdgeStmt t h l) items ->
          (current_node b = Some t \/
           created (node_counter b1) (node_counter b2) t) /\
          ~ created (node_counter b) (node_counter b1) t) /\
    (forall text,
        visit (Return text) (set_suppress_edge false b1)
        = Ok (mkBuilder
                (graph b1 ++
                 NodeStmt (node_id (node_counter b1)) (fill text) "lightgreen" ::
                 match current_node b with
                 | Some p => [EdgeStmt p (node_id (node_counter b1)) None]
                 | None => []
                 end)
                (Some (node_id (node_counter b1))) (S (node_counter b1)) false)) /\
    (forall c label stmts branch f p b2 items,
        current_node b = Some p -> created 0 (node_counter b) c ->
        branch_walk visit c label stmts branch (set_suppress_edge f b1) = Ok b2 ->
        graph b2 = graph b1 ++ items ->
        forall t h l, In (EdgeStmt t h l) items ->
          (t = p \/ t = c \/ created (node_counter b1) (node_counter b2) t) /\
          ~ created (node_counter b) (node_counter b1) t).
Proof.
  intros Hb.
  destruct (visit_If_grows test body orelse (all_visit_ok body) (all_visit_ok orelse) b Hb)
    as (b1' & b2' & xs & ys & _ & _ & E & _ & _ & _ & _ & G).
  set (b1 := set_current_node (current_node b) b2') in *.
  assert (Hb1 : wf b1) by (eapply visit_wf; eassumption).
  pose proof (grows_counter _ _ _ _ G) as Hn.
  exists b1. split; [exact E|]. split; [reflexivity|].
  split; [|split].
  - intros next f b2 items E2 Hg t h l Hi.
    destruct (visit_emits next _ b2 (wf_set_suppress f b1 Hb1) E2) as (items' & G2).
    pose proof (grows_graph _ _ _ _ G2) as Hg'. simpl in Hg'.
    rewrite Hg in Hg'. apply app_inv_head in Hg'. subst items'.
    destruct (grows_edges _ _ _ _ G2 _ Hi) as [_ [[Ht _]|Ht]].
    + change (current_node b = Some t) in Ht.
      split; [now left|]. intros Hc.
      eapply created_apart; [| exact (wf_cursor b Hb t Ht) | exact Hc]. lia.
    + change (created (node_counter b1) (node_counter b2) t) in Ht.
      split; [now right|]. intros Hc.
      eapply created_apart; [| exact Hc | exact Ht]. lia.
  - intros text.
    change (visit (Return text) (set_suppress_edge false b1))
      with (visit_Return text (set_suppress_edge false b1)).
    rewrite visit_Return_eq. unfold after_leaf, leaf_items; simpl.
    destruct (current_node b) as [p|] eqn:Ec; [|reflexivity].
    rewrite (node_id_truthy p _ _ (wf_cursor b Hb p Ec)). reflexivity.
  - intros c label stmts branch f p b2 items Hp Hc E2 Hg t h l Hi.
    destruct (branch_walk_emits c label stmts branch _ b2 p
                (wf_set_suppress f b1 Hb1)) as (items' & G2);
      [exact Hp
      | change (created 0 (node_counter b1) c); eapply created_mono; [| |exact Hc]; lia
      | exact E2 |].
    pose proof (grows_graph _ _ _ _ G2) as Hg'. simpl in Hg'.
    rewrite Hg in Hg'. apply app_inv_head in Hg'. subst items'.
    destruct (grows_edges _ _ _ _ G2 _ Hi) as [_ [[[Ht _]|[Ht _]]|Ht]].
    + change (current_node b = Some t) in Ht.
      rewrite Hp in Ht. inversion Ht; subst t.
      split; [now left|]. intros Hcr.
      eapply created_apart; [| exact (wf_cursor b Hb p Hp) | exact Hcr]. lia.
    + subst t. split; [right; now left|]. intros Hcr.
      eapply created_apart; [| exact Hc | exact Hcr]. lia.
    + change (created (node_counter b1) (node_counter b2) t) in Ht.
      split; [right; now right|]. intros Hcr.
      eapply created_apart; [| exact Hcr | exact Ht]. lia.
Qed.

(** ** One turn of a branch walk *)

Lemma walk_step_stay (c label : string) (stmt : ast) (rest : list ast)
      (branch : option string) (b b1 : builder) :
  visit stmt (set_suppress_edge true b) = Ok b1 ->
  current_node b1 = current_node b ->
  branch_walk visit c label (stmt :: rest) branch b
  = branch_walk visit c label rest branch (set_suppress_edge false b1).
Proof.
  intros E K. cbn [branch_walk]. rewrite E. cbn [bind].
  change (current_node (set_suppress_edge false b1)) with (current_node b1).
  now rewrite K, ne_refl.
Qed.

Lemma walk_step_move (c label : string) (stmt : ast) (rest : list ast)
      (branch : option string) (b b1 : builder) (p s : string) :
  visit stmt (set_suppress_edge true b) = Ok b1 ->
  current_node b = Some p -> current_node b1 = Some s -> s <> p ->
  branch_walk visit c label (stmt :: rest) branch b
  = branch_walk visit c label rest
      (if is_None branch then Some s else branch)
      (emit (EdgeStmt (if is_None branch then c else p) s (Some label))
            (set_suppress_edge false b1)).
Proof.
  intros E Hp K Hsp. cbn [branch_walk]. rewrite E. cbn [bind].
  change (current_node (set_suppress_edge false b1)) with (current_node b1).
  rewrite K, Hp.
  assert (N : ne (Some s) (Some p) = true) by (apply ne_true; congruence).
  rewrite N. destruct (is_None branch); reflexivity.
Qed.

Lemma wf_emit_edge (t h : string) (l : option string) (b : builder) :
  wf b -> created 0 (node_counter b) t -> created 0 (node_counter b) h ->
  wf (emit (EdgeStmt t h l) b).
Proof.
  intros [Wc We] Ht Hh. constructor; [exact Wc|].
  intros t' h' l' Hi. simpl in Hi. apply in_app_or in Hi.
  destruct Hi as [Hi|[Hi|[]]]; [exact (We _ _ _ Hi)|].
  inversion Hi; subst. now split.
Qed.

(** ** C1: the edges of a branch after the first *)

(** C1, as the code has it: in a branch walk whose first node is already
    wired, a statement that leaves the cursor on a new node [s] gets the
    chaining edge from the previous node [p] to [s], and that edge carries
    the label of the branch ("True" for the body, "False" for the else
    part), as the first edge out of the condition node does. *)
Theorem chain_edge_carries_branch_label (c label first : string) (stmt : ast)
        (rest : list ast) (b b1 : builder) (p : string) :
  wf b -> current_node b = Some p -> created 0 (node_counter b) c ->
  visit stmt (set_suppress_edge true b) = Ok b1 ->
  current_node b1 <> current_node b ->
  exists s,
    current_node b1 = Some s /\
    branch_walk visit c label (stmt :: rest) (Some first) b
    = branch_walk visit c label rest (Some first)
        (emit (EdgeStmt p s (Some label)) (set_suppress_edge false b1)) /\
    exists b',
      branch_walk visit c label (stmt :: rest) (Some first) b = Ok b' /\
      In (EdgeStmt p s (Some label)) (graph b').
Proof.
  intros Hb Hp Hc E Hne.
  destruct (visit_emits stmt _ b1 (wf_set_suppress true b Hb) E) as (xs & G).
  pose proof (grows_counter _ _ _ _ G) as Hn.
  change (node_counter (set_suppress_edge true b)) with (node_counter b) in Hn.
  destruct (grows_cursor _ _ _ _ G) as [K|(s & Hs & K)]; [now elim Hne|].
  change (created (node_counter b) (node_counter b1) s) in Hs.
  assert (Hsp : s <> p).
  { intros ->. eapply created_apart; [| exact (wf_cursor b Hb p Hp) | exact Hs]. lia. }
  exists s. split; [exact K|].
  pose proof (walk_step_move c label stmt rest (Some first) b b1 p s E Hp K Hsp) as W.
  cbn [is_None] in W. split; [exact W|].
  set (b2 := emit (EdgeStmt p s (Some label)) (set_suppress_edge false b1)) in *.
  assert (Hb1 : wf b1) by (eapply visit_wf; [apply (wf_set_suppress true b Hb) | exact E]).
  assert (Hb2 : wf b2).
  { apply wf_emit_edge; [now apply wf_set_suppress | |].
    - eapply created_mono; [| |exact (wf_cursor b Hb p Hp)]; simpl; lia.
    - eapply created_mono; [| |exact Hs]; simpl; lia. }
  destruct (branch_walk_grows c label rest (all_visit_ok rest) (Some first) b2 s Hb2)
    as (b' & zs & E' & G'); [exact K | |].
  { eapply created_mono; [| |exact Hc]; simpl; lia. }
  exists b'. split; [now rewrite W|].
  rewrite (grows_graph _ _ _ _ G'). apply in_or_app. left.
  simpl. apply in_or_app. right. now left.
Qed.

(** ** C2: a conditional as the first statement of a branch *)

(** C2, as the code has it: when the first statement of a branch is a
    conditional, the only edge into the nested condition node is the one the
    nested [visit_If] draws from its predecessor, the parent condition node,
    and that edge has no label; the branch walk adds no labelled edge. *)
Theorem nested_conditional_edge_unlabelled (c label test : string)
        (body orelse rest : list ast) (b : builder) :
  wf b -> current_node b = Some c ->
  exists b',
    branch_walk visit c label (If test body orelse :: rest) None b = Ok b' /\
    filter (enters (node_id (node_counter b))) (graph b')
    = [EdgeStmt c (node_id (node_counter b)) None].
Proof.
  intros Hb Hc.
  set (b0 := set_suppress_edge true b).
  assert (Hb0 : wf b0) by now apply wf_set_suppress.
  destruct (visit_If_grows test body orelse (all_visit_ok body) (all_visit_ok orelse) b0 Hb0)
    as (b1 & b2 & xs & ys & _ & _ & E & He & G1 & He2 & G2 & G).
  set (b3 := set_current_node (current_node b0) b2) in *.
  pose proof (grows_counter _ _ _ _ G1) as Hn1.
  change (node_counter (if_entry test b0)) with (S (node_counter b)) in Hn1.
  pose proof (grows_counter _ _ _ _ G2) as Hn2.
  change (node_counter (set_current_node _ b1)) with (node_counter b1) in Hn2.
  assert (Hb3 : wf b3) by exact (visit_wf _ _ _ Hb0 E).
  pose proof (wf_cursor b Hb c Hc) as Hcc.
  destruct (branch_walk_grows c label rest (all_visit_ok rest) None
              (set_suppress_edge false b3) c (wf_set_suppress false b3 Hb3))
    as (b' & zs & E' & G'); [exact Hc | |].
  { change (created 0 (node_counter b2) c). eapply created_mono; [| |exact Hcc]; lia. }
  exists b'. split.
  - rewrite (walk_step_stay c label _ rest None b b3 E); [exact E' | reflexivity].
  - rewrite (grows_graph _ _ _ _ G'). cbn [graph set_suppress_edge].
    rewrite (grows_graph _ _ _ _ G). cbn [graph b0 set_suppress_edge].
    rewrite !filter_app.
    rewrite (enters_old b _ Hb (le_n _)).
    rewrite (enters_fresh _ _ _ xs (node_counter b) G1) by (simpl; lia).
    rewrite (enters_fresh _ _ _ ys (node_counter b) G2) by (simpl; lia).
    rewrite (enters_fresh _ _ _ zs (node_counter b) G') by (simpl; lia).
    unfold entry_items. cbn [current_node b0 set_suppress_edge node_counter].
    rewrite Hc, (node_id_truthy c _ _ Hcc). simpl. now rewrite String.eqb_refl.
Qed.

(** ** C10: an unrecognised wrapper as a branch statement *)

Lemma chain_items_suppressed (sts : list (string * string)) :
  forall cur n,
    chain_items true cur n sts
    = map (fun q => statement_node (fst q) (snd q)) (combine (seq n (length sts)) sts).
Proof.
  induction sts as [|st sts IH]; intros cur n; [reflexivity|].
  cbn [chain_items length seq combine map fst snd]. rewrite IH.
  unfold pred_edge. destruct cur as [p|]; [|reflexivity].
  now rewrite andb_false_r.
Qed.

Lemma enters_statement_nodes (h : string) (l : list (nat * (string * string))) :
  filter (enters h) (map (fun q => statement_node (fst q) (snd q)) l) = [].
Proof.
  apply filter_none. intros i Hi. apply in_map_iff in Hi.
  destruct Hi as (q & <- & _). reflexivity.
Qed.

Lemma enters_other (n j : nat) : n <> j -> (node_id n =? node_id j)%string = false.
Proof.
  intros H. apply String.eqb_neq. intros E. now apply node_id_inj in E.
Qed.

(** C10, for a wrapper that holds no conditional: visited as one statement
    of a branch, an unrecognised wrapper whose descendants create two or more
    nodes emits those nodes and no edge, the flag staying set throughout; the
    branch walk then draws its one labelled edge to the last of them, and no
    edge enters any of the earlier ones. *)
Theorem wrapper_nodes_left_unwired (c label : string) (children rest : list ast)
        (branch : option string) (b : builder) (p : string) :
  wf b -> current_node b = Some p -> created 0 (node_counter b) c ->
  forallb no_If children = true ->
  2 <= length (flat_map statements children) ->
  let sts := flat_map statements children in
  let last := node_id (node_counter b + length sts - 1) in
  let tl := if is_None branch then c else p in
  exists b1,
    visit (Other children) (set_suppress_edge true b) = Ok b1 /\
    suppress_edge b1 = true /\
    graph b1 = graph b ++ map (fun q => statement_node (fst q) (snd q))
                              (combine (seq (node_counter b) (length sts)) sts) /\
    current_node b1 = Some last /\
    exists b',
      branch_walk visit c label (Other children :: rest) branch b = Ok b' /\
      filter (enters last) (graph b') = [EdgeStmt tl last (Some label)] /\
      forall j, node_counter b <= j < node_counter b + length sts - 1 ->
                filter (enters (node_id j)) (graph b') = [].
Proof.
  intros Hb Hp Hc Hn Hk sts last tl.
  set (b0 := set_suppress_edge true b).
  assert (Hb0 : wf b0) by now apply wf_set_suppress.
  pose proof (visit_no_If (Other children) Hn b0) as E.
  change (statements (Other children)) with sts in E.
  set (b1 := after_chain sts b0) in *.
  assert (Hg1 : graph b1 = graph b ++ map (fun q => statement_node (fst q) (snd q))
                                      (combine (seq (node_counter b) (length sts)) sts)).
  { unfold b1, after_chain. cbn [graph b0 set_suppress_edge suppress_edge
                                 current_node node_counter].
    now rewrite chain_items_suppressed. }
  assert (Hk1 : current_node b1 = Some last).
  { unfold b1, after_chain, chain_cursor. cbn [current_node].
    fold sts in Hk. destruct sts; [simpl in Hk; lia | reflexivity]. }
  assert (Hn1 : node_counter b1 = node_counter b + length sts) by reflexivity.
  assert (Hlast : created (node_counter b) (node_counter b1) last).
  { apply created_node_id. fold sts in Hk. lia. }
  pose proof (wf_cursor b Hb p Hp) as Hpc.
  assert (Hlp : last <> p).
  { intros El. rewrite El in Hlast. eapply created_apart; [| exact Hpc | exact Hlast]. lia. }
  pose proof (walk_step_move c label (Other children) rest branch b b1 p last
                             E Hp Hk1 Hlp) as W.
  fold tl in W.
  set (b2 := emit (EdgeStmt tl last (Some label)) (set_suppress_edge false b1)) in *.
  assert (Hb1 : wf b1) by exact (visit_wf _ _ _ Hb0 E).
  assert (Hb2 : wf b2).
  { apply wf_emit_edge; [now apply wf_set_suppress | |].
    - change (created 0 (node_counter b1) tl). unfold tl.
      destruct (is_None branch);
        (eapply created_mono; [| |eassumption]; lia).
    - change (created 0 (node_counter b1) last).
      eapply created_mono; [| |exact Hlast]; lia. }
  destruct (branch_walk_grows c label rest (all_visit_ok rest)
              (if is_None branch then Some last else branch) b2 last Hb2)
    as (b' & zs & E' & G'); [exact Hk1 | |].
  { change (created 0 (node_counter b1) c). eapply created_mono; [| |exact Hc]; lia. }
  exists b1. split; [exact E|]. split; [reflexivity|]. split; [exact Hg1|].
  split; [exact Hk1|]. exists b'. split; [now rewrite W|].
  assert (Hg' : graph b'
                = ((graph b ++ map (fun q => statement_node (fst q) (snd q))
                                   (combine (seq (node_counter b) (length sts)) sts))
                   ++ [EdgeStmt tl last (Some label)]) ++ zs).
  { rewrite (grows_graph _ _ _ _ G'). unfold b2.
    cbn [graph emit set_suppress_edge]. now rewrite Hg1. }
  split.
  - rewrite Hg', !filter_app, enters_statement_nodes.
    unfold last. rewrite (enters_old b _ Hb) by (fold sts in Hk; lia).
    rewrite (enters_fresh _ _ _ zs _ G')
      by (change (node_counter b2) with (node_counter b1); fold sts in Hk; lia).
    simpl. now rewrite String.eqb_refl.
  - intros j Hj.
    rewrite Hg', !filter_app, enters_statement_nodes.
    rewrite (enters_old b _ Hb) by lia.
    rewrite (enters_fresh _ _ _ zs _ G')
      by (change (node_counter b2) with (node_counter b1); lia).
    unfold last. cbn [filter enters app]. now rewrite enters_other by lia.
Qed.

(** ** C4: the labelled edges out of a condition node *)

Lemma leaves_true (t : string) (l : option string) (t' h : string) (l' : option string) :
  leaves t l (EdgeStmt t' h l') = true -> t' = t /\ l' = l.
Proof.
  simpl. intros H. apply andb_true_iff in H. destruct H as [Ht Hl].
  apply String.eqb_eq in Ht. split; [exact Ht|].
  destruct l' as [x|], l as [y|]; simpl in Hl; try discriminate; [|reflexivity].
  apply String.eqb_eq in Hl. now subst.
Qed.

Lemma leaves_none (t : string) (l : option string) (items : list item) :
  (forall h, ~ In (EdgeStmt t h l) items) -> filter (leaves t l) items = [].
Proof.
  intros H. apply filter_none. intros i Hi.
  destruct (leaves t l i) eqn:E; [|reflexivity].
  destruct i as [| |t' h l']; try discriminate.
  apply leaves_true in E. destruct E; subst. now elim (H h).
Qed.

(** A visit draws no labelled edge from a node that existed before it. *)
Lemma leaves_visit (b b' : builder) (items : list item) (c l : string) :
  grows (visit_tails b) b b' items -> created 0 (node_counter b) c ->
  filter (leaves c (Some l)) items = [].
Proof.
  intros G Hc. apply leaves_none. intros h Hi.
  destruct (grows_edges _ _ _ _ G _ Hi) as [_ [[_ Hl]|Ht]]; [discriminate|].
  eapply created_apart; [| exact Hc | exact Ht]. lia.
Qed.

(** A branch walk draws no edge with the other label from its condition
    node. *)
Lemma leaves_walk_other (c label l : string) (b b' : builder) (items : list item) :
  grows (walk_tails c label b) b b' items -> created 0 (node_counter b) c ->
  l <> label -> filter (leaves c (Some l)) items = [].
Proof.
  intros G Hc Hl. apply leaves_none. intros h Hi.
  destruct (grows_edges _ _ _ _ G _ Hi) as [_ [[[_ [E|E]]|[_ E]]|Ht]];
    try discriminate; try (inversion E; congruence).
  eapply created_apart; [| exact Hc | exact Ht]. lia.
Qed.

Lemma leaves_entry (test c l : string) (b : builder) :
  filter (leaves c (Some l)) (entry_items test b) = [].
Proof.
  unfold entry_items. cbn [filter leaves].
  destruct (current_node b) as [p|]; [|reflexivity].
  destruct (negb (p =? "")); [|reflexivity].
  cbn [filter leaves eqb_label]. now rewrite andb_false_r.
Qed.

Lemma visit_children_inv (children : list ast) (child : ast) (b b' : builder) :
  visit_children visit (child :: children) b = Ok b' ->
  exists b1, visit child b = Ok b1 /\
             visit_children visit children b1 = Ok b'.
Proof.
  cbn [visit_children]. destruct (visit child b) as [b1|e]; [|discriminate].
  intros E. now exists b1.
Qed.

Lemma visit_children_cursor (children : list ast) :
  Forall (fun node => forall b b', wf b -> visit node b = Ok b' ->
                                   cursor_after (moves_cursor node) b b') children ->
  forall b b', wf b -> visit_children visit children b = Ok b' ->
               cursor_after (existsb moves_cursor children) b b'.
Proof.
  induction 1 as [|child rest Hc _ IH]; intros b b' Hb E.
  - inversion E; subst. reflexivity.
  - apply visit_children_inv in E. destruct E as (b1 & E1 & E2).
    pose proof (visit_wf _ _ _ Hb E1) as Hb1.
    destruct (visit_emits _ _ _ Hb E1) as (xs & G1).
    pose proof (grows_counter _ _ _ _ G1) as Hn1.
    assert (Hn2 : node_counter b1 <= node_counter b').
    { destruct (visit_children_grows rest (all_visit_ok rest) b1 Hb1)
        as (b2 & ys & E2' & G2).
      rewrite E2 in E2'. inversion E2'; subst b2.
      exact (grows_counter _ _ _ _ G2). }
    specialize (Hc b b1 Hb E1). specialize (IH b1 b' Hb1 E2).
    cbn [existsb]. unfold cursor_after in *.
    destruct (existsb moves_cursor rest).
    + rewrite orb_true_r. destruct IH as (s & Hs & K). exists s. split; [|exact K].
      eapply created_mono; [| |exact Hs]; lia.
    + rewrite orb_false_r. destruct (moves_cursor child).
      * destruct Hc as (s & Hs & K). exists s. split; [|congruence].
        eapply created_mono; [| |exact Hs]; lia.
      * congruence.
Qed.

Lemma visit_cursor (node : ast) :
  forall b b', wf b -> visit node b = Ok b' ->
               cursor_after (moves_cursor node) b b'.
Proof.
  induction node as [test body orelse _ _|text|text|children Hch] using ast_ind;
    intros b b' Hb E.
  - destruct (visit_If_grows test body orelse (all_visit_ok body)
                             (all_visit_ok orelse) b Hb)
      as (b1 & b2 & xs & ys & _ & _ & E' & _).
    rewrite E in E'. inversion E'; subst b'. reflexivity.
  - change (visit (Return text) b) with (visit_Return text b) in E.
    rewrite visit_Return_eq in E. inversion E; subst b'.
    exists (node_id (node_counter b)). split; [apply created_last | reflexivity].
  - change (visit (Expr text) b) with (generic_visit_Expr text b) in E.
    rewrite generic_visit_Expr_eq in E. inversion E; subst b'.
    exists (node_id (node_counter b)). split; [apply created_last | reflexivity].
  - exact (visit_children_cursor children Hch b b' Hb E).
Qed.

(** The edges with the branch label that a branch walk draws from its
    condition node: one, to the first statement that moves the cursor, when
    the walk starts at the condition node with no first node yet; none once a
    first node is wired. *)
Lemma walk_leaves (c label : string) (stmts : list ast) :
  forall branch b p b',
    wf b -> current_node b = Some p -> created 0 (node_counter b) c ->
    branch_walk visit c label stmts branch b = Ok b' ->
    exists items,
      graph b' = graph b ++ items /\
      (branch = None -> p = c ->
       length (filter (leaves c (Some label)) items)
       = if existsb moves_cursor stmts then 1 else 0) /\
      (branch <> None -> p <> c -> filter (leaves c (Some label)) items = []).
Proof.
  induction stmts as [|stmt rest IH]; intros branch b p b' Hb Hp Hc E.
  - inversion E; subst b'. exists []. rewrite app_nil_r. now repeat split.
  - pose proof (wf_set_suppress true b Hb) as Hb0.
    destruct (visit_grows stmt _ Hb0) as (b1 & xs & E1 & G1).
    pose proof (visit_cursor stmt _ b1 Hb0 E1) as K.
    pose proof (visit_wf _ _ _ Hb0 E1) as Hb1.
    pose proof (grows_counter _ _ _ _ G1) as Hn1.
    change (node_counter (set_suppress_edge true b)) with (node_counter b) in Hn1.
    pose proof (grows_graph _ _ _ _ G1) as Hg1.
    change (graph (set_suppress_edge true b)) with (graph b) in Hg1.
    pose proof (leaves_visit _ _ xs c label G1 Hc) as Lx.
    pose proof (wf_cursor b Hb p Hp) as Hpc.
    cbn [existsb]. unfold cursor_after in K.
    destruct (moves_cursor stmt).
    + destruct K as (s & Hs & K).
      change (created (node_counter b) (node_counter b1) s) in Hs.
      assert (Hsp : s <> p).
      { intros ->. eapply created_apart; [| exact Hpc | exact Hs]. lia. }
      assert (Hsc : s <> c).
      { intros ->. eapply created_apart; [| exact Hc | exact Hs]. lia. }
      rewrite (walk_step_move c label stmt rest branch b b1 p s E1 Hp K Hsp) in E.
      set (tl := if is_None branch then c else p) in *.
      set (br := if is_None branch then Some s else branch) in *.
      set (b2 := emit (EdgeStmt tl s (Some label)) (set_suppress_edge false b1)) in *.
      assert (Hb2 : wf b2).
      { apply wf_emit_edge; [now apply wf_set_suppress | |].
        - change (created 0 (node_counter b1) tl). unfold tl.
          destruct (is_None branch); (eapply created_mono; [| |eassumption]; lia).
        - change (created 0 (node_counter b1) s).
          eapply created_mono; [| |exact Hs]; lia. }
      destruct (IH br b2 s b' Hb2 K) as (zs & Hg & _ & Z); [|exact E|].
      { change (created 0 (node_counter b1) c). eapply created_mono; [| |exact Hc]; lia. }
      assert (Hbr : br <> None) by (unfold br; destruct branch; discriminate).
      specialize (Z Hbr Hsc).
      exists ((xs ++ [EdgeStmt tl s (Some label)]) ++ zs). split.
      { rewrite Hg. unfold b2. cbn [graph emit set_suppress_edge].
        now rewrite Hg1, !app_assoc. }
      rewrite !filter_app, Lx, Z, app_nil_r. cbn [app filter leaves eqb_label].
      rewrite String.eqb_refl, andb_true_r. split.
      * intros -> ->. unfold tl. cbn [is_None]. now rewrite String.eqb_refl.
      * intros Hbn Hpn. unfold tl. destruct branch; [|now elim Hbn].
        cbn [is_None]. apply String.eqb_neq in Hpn. now rewrite Hpn.
    + change (current_node b1 = current_node b) in K.
      rewrite (walk_step_stay c label stmt rest branch b b1 E1 K) in E.
      destruct (IH branch (set_suppress_edge false b1) p b'
                   (wf_set_suppress false b1 Hb1)) as (zs & Hg & Z1 & Z2);
        [cbn [current_node set_suppress_edge]; congruence | | exact E |].
      { change (created 0 (node_counter b1) c). eapply created_mono; [| |exact Hc]; lia. }
      exists (xs ++ zs). split.
      { rewrite Hg. cbn [graph set_suppress_edge]. now rewrite Hg1, app_assoc. }
      rewrite !filter_app, Lx. cbn [app orb]. split; assumption.
Qed.

(** C4, as the code has it: a conditional with an empty false branch has
    one "True" edge out of its condition node when some statement of its true
    branch leaves the cursor on a node of its own (a return or an expression
    statement, alone or under unrecognised wrappers), however many statements
    follow, and none otherwise; it has no "False" edge out of it. *)
Theorem true_edge_of_conditional (test : string) (body : list ast) (b : builder) :
  wf b ->
  let c := node_id (node_counter b) in
  exists b',
    visit (If test body []) b = Ok b' /\
    length (filter (leaves c (Some "True")) (graph b'))
    = (if existsb moves_cursor body then 1 else 0) /\
    filter (leaves c (Some "False")) (graph b') = [].
Proof.
  intros Hb c.
  destruct (visit_If_grows test body [] (all_visit_ok body) (all_visit_ok []) b Hb)
    as (b1 & b2 & xs & ys & E1 & E2 & E & He & G1 & He2 & G2 & G).
  fold c in E1, E2, G1, G2, He2.
  assert (Hce : created 0 (node_counter (if_entry test b)) c).
  { exists (node_counter b). simpl. split; [lia | reflexivity]. }
  destruct (walk_leaves c "True" body None (if_entry test b) c b1 He eq_refl Hce E1)
    as (xs' & Hg1 & Cnt & _).
  rewrite (grows_graph _ _ _ _ G1) in Hg1. apply app_inv_head in Hg1. subst xs'.
  specialize (Cnt eq_refl eq_refl).
  inversion E2; subst b2.
  pose proof (grows_graph _ _ _ _ G2) as Hg2.
  rewrite <- (app_nil_r (graph _)) in Hg2 at 1. apply app_inv_head in Hg2. subst ys.
  exists (set_current_node (current_node b) (set_current_node (Some c) b1)).
  split; [exact E|].
  rewrite (grows_graph _ _ _ _ G), app_nil_r, !filter_app.
  unfold c at 1 3. rewrite !(leaves_old b _ _ Hb (le_n _)). fold c.
  rewrite !leaves_entry. cbn [app]. split; [exact Cnt|].
  apply (leaves_walk_other c "True" "False" _ _ xs G1 Hce). discriminate.
Qed.

(** With a frame for every call and library calls that return, the builder
    returns on every tree. *)
Lemma build_succeeds (tree : ast) : exists b, build tree = Ok b.
Proof.
  destruct (visit_grows tree init wf_init) as (b & xs & E & _). now exists b.
Qed.

(** * Part II, continued: the whole graph *)

(** ** Reading a successful call backwards *)

Lemma bind_inv {A B : Type} (c : result A) (k : A -> result B) (r : B) :
  bind c k = Ok r -> exists a, c = Ok a /\ k a = Ok r.
Proof. destruct c as [a|e]; simpl; [|discriminate]. intros H. now exists a. Qed.

Lemma graph_edge_inv (t h l : option string) (b b' : builder) :
  graph_edge t h l b = Ok b' ->
  exists t' h', t = Some t' /\ h = Some h' /\ b' = emit (EdgeStmt t' h' l) b.
Proof.
  destruct t as [t'|], h as [h'|]; simpl; try discriminate.
  intros H. inversion H. now exists t', h'.
Qed.

Lemma visit_If_inv (test : string) (body orelse : list ast) (b b' : builder) :
  visit (If test body orelse) b = Ok b' ->
  exists b1 b2,
    branch_walk visit (node_id (node_counter b)) "True" body None
                (if_entry test b) = Ok b1 /\
    branch_walk visit (node_id (node_counter b)) "False" orelse None
                (set_current_node (Some (node_id (node_counter b))) b1) = Ok b2 /\
    b' = set_current_node (current_node b) b2.
Proof.
  rewrite visit_If_eq. cbv zeta. intros H.
  apply bind_inv in H. destruct H as (b1 & E1 & H).
  apply bind_inv in H. destruct H as (b2 & E2 & H).
  inversion H. now exists b1, b2.
Qed.

(** One turn of a branch walk that succeeded: the visit of the statement,
    then at most one edge with the label of the branch, then the rest. *)
Lemma branch_walk_inv (c label : string) (stmt : ast) (rest : list ast)
      (branch : option string) (b b' : builder) :
  branch_walk visit c label (stmt :: rest) branch b = Ok b' ->
  exists b1 b2 branch',
    visit stmt (set_suppress_edge true b) = Ok b1 /\
    branch_walk visit c label rest branch' b2 = Ok b' /\
    suppress_edge b2 = false /\
    node_counter b2 = node_counter b1 /\
    current_node b2 = current_node b1 /\
    (graph b2 = graph b1 \/
     exists t h, graph b2 = graph b1 ++ [EdgeStmt t h (Some label)]).
Proof.
  cbn [branch_walk]. intros H.
  apply bind_inv in H. destruct H as (b1 & E1 & H).
  exists b1.
  destruct (ne (current_node (set_suppress_edge false b1)) (current_node b)
            && is_None branch).
  - apply bind_inv in H. destruct H as (b2 & E2 & H).
    apply graph_edge_inv in E2. destruct E2 as (t & h & _ & _ & ->).
    exists (emit (EdgeStmt t h (Some label)) (set_suppress_edge false b1)),
           (current_node (set_suppress_edge false b1)).
    repeat split; try assumption. right. now exists t, h.
  - destruct (ne (current_node (set_suppress_edge false b1)) (current_node b)).
    + apply bind_inv in H. destruct H as (b2 & E2 & H).
      apply graph_edge_inv in E2. destruct E2 as (t & h & _ & _ & ->).
      exists (emit (EdgeStmt t h (Some label)) (set_suppress_edge false b1)), branch.
      repeat split; try assumption. right. now exists t, h.
    + exists (set_suppress_edge false b1), branch.
      repeat split; try assumption. now left.
Qed.

(** ** Every recognised statement has its node *)

Lemma numbered_cons (n : nat) (st : string * string) (sts : list (string * string)) :
  numbered n (st :: sts) = statement_node n st :: numbered (S n) sts.
Proof. reflexivity. Qed.

Lemma numbered_app (xs ys : list (string * string)) :
  forall n, numbered n (xs ++ ys) = numbered n xs ++ numbered (n + length xs) ys.
Proof.
  induction xs as [|x xs IH]; intros n.
  - simpl. now rewrite Nat.add_0_r.
  - change ((x :: xs) ++ ys) with (x :: (xs ++ ys)).
    rewrite !numbered_cons, IH. simpl. do 3 f_equal. lia.
Qed.

Lemma traced_nil (b b' : builder) :
  graph b' = graph b -> node_counter b' = node_counter b -> traced [] b b'.
Proof.
  intros Hg Hn. exists []. rewrite app_nil_r, Nat.add_0_r. now repeat split.
Qed.

Lemma traced_trans (xs ys : list (string * string)) (b b1 b2 : builder) :
  traced xs b b1 -> traced ys b1 b2 -> traced (xs ++ ys) b b2.
Proof.
  intros (i1 & G1 & N1 & C1 & L1) (i2 & G2 & N2 & C2 & L2).
  exists (i1 ++ i2). repeat split.
  - now rewrite G2, G1, app_assoc.
  - now rewrite nodes_app, N1, N2, numbered_app, C1.
  - rewrite C2, C1, length_app. lia.
  - apply Forall_app. now split.
Qed.

Lemma traced_edge (b b1 b2 : builder) (sts : list (string * string))
      (t h : string) (l : option string) :
  traced sts b b1 ->
  graph b2 = graph b1 ++ [EdgeStmt t h l] -> node_counter b2 = node_counter b1 ->
  l = None \/ l = Some "True" \/ l = Some "False" ->
  traced sts b b2.
Proof.
  intros (i1 & G1 & N1 & C1 & L1) Hg Hn Hl.
  exists (i1 ++ [EdgeStmt t h l]). repeat split.
  - now rewrite Hg, G1, app_assoc.
  - rewrite nodes_app, N1. simpl. now rewrite app_nil_r.
  - congruence.
  - apply Forall_app. split; [exact L1|]. now constructor.
Qed.

Lemma traced_same (b b1 b2 : builder) (sts : list (string * string)) :
  traced sts b b1 ->
  graph b2 = graph b1 -> node_counter b2 = node_counter b1 -> traced sts b b2.
Proof.
  intros (i1 & G1 & N1 & C1 & L1) Hg Hn.
  exists i1. repeat split; congruence.
Qed.

Lemma traced_from (b0 b b' : builder) (sts : list (string * string)) :
  traced sts b0 b' ->
  graph b0 = graph b -> node_counter b0 = node_counter b -> traced sts b b'.
Proof.
  intros (i1 & G1 & N1 & C1 & L1) Hg Hn.
  exists i1. rewrite <- Hg, <- Hn. now repeat split.
Qed.

Lemma traced_leaf (text fillcolor : string) (b : builder) :
  traced [(text, fillcolor)] b (after_leaf text fillcolor b).
Proof.
  exists (leaf_items text fillcolor b). unfold leaf_items. repeat split.
  - destruct (current_node b) as [p|]; [|reflexivity].
    now destruct (negb (p =? "") && negb (suppress_edge b)).
  - simpl. lia.
  - constructor; [exact I|].
    destruct (current_node b) as [p|]; [|constructor].
    destruct (negb (p =? "") && negb (suppress_edge b)); constructor;
      [now left | constructor].
Qed.

Lemma traced_entry (test : string) (b : builder) :
  traced [(("Condition: " ++ test)%string, "lightblue")] b (if_entry test b).
Proof.
  exists (entry_items test b). unfold entry_items. repeat split.
  - destruct (current_node b) as [p|]; [|reflexivity].
    now destruct (negb (p =? "")).
  - simpl. lia.
  - constructor; [exact I|].
    destruct (current_node b) as [p|]; [|constructor].
    destruct (negb (p =? "")); constructor; [now left | constructor].
Qed.

Lemma visit_children_traced (children : list ast) :
  Forall visit_traced children ->
  forall b b', visit_children visit children b = Ok b' ->
    traced (flat_map reached children) b b' /\
    (suppress_edge b = false -> suppress_edge b' = false).
Proof.
  induction 1 as [|child rest Hc _ IH]; intros b b' E.
  - inversion E; subst b'. split; [now apply traced_nil | auto].
  - apply visit_children_inv in E. destruct E as (b1 & E1 & E2).
    destruct (Hc b b1 E1) as [T1 S1]. destruct (IH b1 b' E2) as [T2 S2].
    split; [|auto]. cbn [flat_map]. now apply (traced_trans _ _ b b1 b').
Qed.

Lemma branch_walk_traced (c label : string) (stmts : list ast) :
  label = "True" \/ label = "False" ->
  Forall visit_traced stmts ->
  forall branch b b', branch_walk visit c label stmts branch b = Ok b' ->
    traced (flat_map reached stmts) b b' /\
    (suppress_edge b = false -> suppress_edge b' = false).
Proof.
  intros Hl. induction 1 as [|stmt rest Hs _ IH]; intros branch b b' E.
  - inversion E; subst b'. split; [now apply traced_nil | auto].
  - apply branch_walk_inv in E.
    destruct E as (b1 & b2 & branch' & E1 & E2 & S2 & N2 & _ & G2).
    destruct (Hs _ b1 E1) as [T1 _]. destruct (IH branch' b2 b' E2) as [T2 S'].
    split; [|intros _; now apply S'].
    cbn [flat_map]. apply (traced_trans _ _ b b2 b'); [|exact T2].
    apply (traced_from (set_suppress_edge true b)); [|reflexivity|reflexivity].
    destruct G2 as [G2|(t & h & G2)].
    + now apply (traced_same _ b1).
    + apply (traced_edge _ b1 b2 _ t h (Some label)); try assumption.
      destruct Hl as [->| ->]; [right; now left | right; now right].
Qed.

Lemma visit_is_traced (node : ast) : visit_traced node.
Proof.
  induction node as [test body orelse Hbody Horelse|text|text|children Hch]
    using ast_ind; intros b b' E.
  - apply visit_If_inv in E. destruct E as (b1 & b2 & E1 & E2 & ->).
    destruct (branch_walk_traced _ "True" body (or_introl eq_refl) Hbody _ _ _ E1)
      as [T1 S1].
    destruct (branch_walk_traced _ "False" orelse (or_intror eq_refl) Horelse _ _ _ E2)
      as [T2 S2].
    split; [|intros Hs; apply S2, S1, Hs].
    cbn [reached].
    change (?x :: ?l ++ ?r) with (([x] ++ l) ++ r).
    apply (traced_same _ b2); [|reflexivity|reflexivity].
    apply (traced_trans _ _ b b1 b2).
    + apply (traced_trans _ _ b (if_entry test b) b1); [apply traced_entry | exact T1].
    + apply (traced_from (set_current_node (Some (node_id (node_counter b))) b1));
        [exact T2 | reflexivity | reflexivity].
  - change (visit (Return text) b) with (visit_Return text b) in E.
    rewrite visit_Return_eq in E. inversion E; subst b'.
    split; [apply traced_leaf | auto].
  - change (visit (Expr text) b) with (generic_visit_Expr text b) in E.
    rewrite generic_visit_Expr_eq in E. inversion E; subst b'.
    split; [apply traced_leaf | auto].
  - exact (visit_children_traced children Hch b b' E).
Qed.

(** X2: after the [graph.attr] statement of [__init__] a build emits node
    and edge statements only, and every edge has no label or one of the
    labels "True" and "False". *)
Theorem edge_labels_of_a_build (tree : ast) :
  exists b items,
    build tree = Ok b /\
    graph b = graph init ++ items /\
    Forall label_ok items /\
    (forall t h l, In (EdgeStmt t h l) (graph b) ->
                   l = None \/ l = Some "True" \/ l = Some "False").
Proof.
  destruct (build_succeeds tree) as (b & E).
  destruct (visit_is_traced tree init b E) as [(items & G & _ & _ & L) _].
  exists b, items. split; [exact E|]. split; [exact G|]. split; [exact L|].
  rewrite Forall_forall in L.
  intros t h l Hi. rewrite G in Hi. apply in_app_or in Hi.
  destruct Hi as [[Hi|[]]|Hi]; [discriminate|]. exact (L _ Hi).
Qed.

(** X3: a visit that finds the suppression flag off leaves it off: the flag
    set for one statement of a branch never outlives that statement. *)
Theorem suppression_does_not_leak (node : ast) (b : builder) :
  wf b -> suppress_edge b = false ->
  exists b', visit node b = Ok b' /\ suppress_edge b' = false.
Proof.
  intros Hb Hs. destruct (visit_grows node b Hb) as (b' & xs & E & _).
  exists b'. split; [exact E|].
  now apply (proj2 (visit_is_traced node b b' E)).
Qed.

(** ** Edges go from older to newer nodes *)

Lemma forward_same (b b' : builder) :
  forward b -> graph b' = graph b -> node_counter b <= node_counter b' ->
  forward b'.
Proof.
  intros F Hg Hn t h l Hi. rewrite Hg in Hi.
  destruct (F t h l Hi) as (i & j & Hij & Ht & Hh).
  exists i, j. split; [lia | now split].
Qed.

Lemma forward_edge (b : builder) (lo : nat) (t h : string) (l : option string) :
  forward b -> created 0 lo t -> created lo (node_counter b) h ->
  forward (emit (EdgeStmt t h l) b).
Proof.
  intros F (i & Hi & ->) (j & Hj & ->) t' h' l' Hin. simpl in Hin.
  apply in_app_or in Hin. destruct Hin as [Hin|[Hin|[]]]; [exact (F _ _ _ Hin)|].
  inversion Hin; subst. exists i, j. simpl. split; [lia | now split].
Qed.

Lemma forward_items (b b' : builder) (x : item) (tl : list item) :
  forward b -> graph b' = graph b ++ x :: tl -> node_counter b' = S (node_counter b) ->
  is_edge x = false ->
  (forall t h l, In (EdgeStmt t h l) tl ->
                 created 0 (node_counter b) t /\ h = node_id (node_counter b)) ->
  forward b'.
Proof.
  intros F Hg Hn Hx Htl t h l Hi. rewrite Hg in Hi. apply in_app_or in Hi.
  destruct Hi as [Hi|[Hi|Hi]].
  - destruct (F t h l Hi) as (i & j & Hij & Ht & Hh).
    exists i, j. split; [lia | now split].
  - subst x. discriminate.
  - destruct (Htl t h l Hi) as [(i & Hi' & ->) ->].
    exists i, (node_counter b). split; [lia | now split].
Qed.

Lemma forward_leaf (text fillcolor : string) (b : builder) :
  wf b -> forward b -> forward (after_leaf text fillcolor b).
Proof.
  intros Hb F.
  apply (forward_items b _ (NodeStmt (node_id (node_counter b)) (fill text) fillcolor)
           (pred_edge (suppress_edge b) (current_node b) (node_counter b)));
    [exact F | reflexivity | reflexivity | reflexivity |].
  intros t h l Hi. unfold pred_edge in Hi.
  destruct (current_node b) as [p|] eqn:Ec; [|destruct Hi].
  destruct (negb (p =? "") && negb (suppress_edge b)); [|destruct Hi].
  destruct Hi as [Hi|[]]. inversion Hi; subst. split; [|reflexivity].
  exact (wf_cursor b Hb t Ec).
Qed.

Lemma forward_entry (test : string) (b : builder) :
  wf b -> forward b -> forward (if_entry test b).
Proof.
  intros Hb F.
  apply (forward_items b _
           (NodeStmt (node_id (node_counter b)) (fill ("Condition: " ++ test)) "lightblue")
           (pred_edge false (current_node b) (node_counter b)));
    [exact F | | reflexivity | reflexivity |].
  - unfold if_entry, entry_items, pred_edge. cbn [graph].
    destruct (current_node b) as [p|]; [|reflexivity].
    now rewrite andb_true_r.
  - intros t h l Hi. unfold pred_edge in Hi.
    destruct (current_node b) as [p|] eqn:Ec; [|destruct Hi].
    destruct (negb (p =? "") && negb false); [|destruct Hi].
    destruct Hi as [Hi|[]]. inversion Hi; subst. split; [|reflexivity].
    exact (wf_cursor b Hb t Ec).
Qed.

Lemma visit_children_forward (children : list ast) :
  Forall visit_forward children ->
  forall b b', wf b -> forward b ->
               visit_children visit children b = Ok b' -> forward b'.
Proof.
  induction 1 as [|child rest Hc _ IH]; intros b b' Hb F E.
  - now inversion E; subst.
  - apply visit_children_inv in E. destruct E as (b1 & E1 & E2).
    apply (IH b1 b'); [exact (visit_wf _ _ _ Hb E1) | exact (Hc b b1 Hb F E1) | exact E2].
Qed.

Lemma branch_walk_forward (c label : string) (stmts : list ast) :
  Forall visit_forward stmts ->
  forall branch b p b',
    wf b -> current_node b = Some p -> created 0 (node_counter b) c ->
    forward b ->
    branch_walk visit c label stmts branch b = Ok b' -> forward b'.
Proof.
  induction 1 as [|stmt rest Hs _ IH]; intros branch b p b' Hb Hp Hc F E.
  - now inversion E; subst.
  - pose proof (wf_set_suppress true b Hb) as Hb0.
    destruct (visit_grows stmt _ Hb0) as (b1 & xs & E1 & G1).
    pose proof (visit_wf _ _ _ Hb0 E1) as Hb1.
    pose proof (grows_counter _ _ _ _ G1) as Hn1.
    change (node_counter (set_suppress_edge true b)) with (node_counter b) in Hn1.
    assert (F1 : forward b1).
    { apply (Hs (set_suppress_edge true b) b1 Hb0); [|exact E1].
      now apply (forward_same b). }
    pose proof (wf_cursor b Hb p Hp) as Hpc.
    destruct (grows_cursor _ _ _ _ G1) as [K|(s & Hs' & K)].
    + change (current_node b1 = current_node b) in K.
      rewrite (walk_step_stay c label stmt rest branch b b1 E1 K) in E.
      apply (IH branch (set_suppress_edge false b1) p b');
        [now apply wf_set_suppress | cbn [current_node set_suppress_edge]; congruence
        | | now apply (forward_same b1) | exact E].
      change (created 0 (node_counter b1) c). eapply created_mono; [| |exact Hc]; lia.
    + change (created (node_counter b) (node_counter b1) s) in Hs'.
      assert (Hsp : s <> p).
      { intros ->. eapply created_apart; [| exact Hpc | exact Hs']. lia. }
      rewrite (walk_step_move c label stmt rest branch b b1 p s E1 Hp K Hsp) in E.
      set (tl := if is_None branch then c else p) in *.
      assert (Htl : created 0 (node_counter b) tl)
        by (unfold tl; now destruct (is_None branch)).
      set (b2 := emit (EdgeStmt tl s (Some label)) (set_suppress_edge false b1)) in *.
      assert (Hb2 : wf b2).
      { apply wf_emit_edge; [now apply wf_set_suppress | |].
        - change (created 0 (node_counter b1) tl).
          eapply created_mono; [| |exact Htl]; lia.
        - change (created 0 (node_counter b1) s).
          eapply created_mono; [| |exact Hs']; lia. }
      apply (IH (if is_None branch then Some s else branch) b2 s b' Hb2 K);
        [| |exact E].
      * change (created 0 (node_counter b1) c). eapply created_mono; [| |exact Hc]; lia.
      * apply (forward_edge _ (node_counter b)); [now apply (forward_same b1) | exact Htl |].
        exact Hs'.
Qed.

Lemma visit_is_forward (node : ast) : visit_forward node.
Proof.
  induction node as [test body orelse Hbody Horelse|text|text|children Hch]
    using ast_ind; intros b b' Hb F E.
  - destruct (visit_If_grows test body orelse (all_visit_ok body)
                             (all_visit_ok orelse) b Hb)
      as (b1 & b2 & xs & ys & E1 & E2 & E' & He & G1 & He2 & G2 & _).
    rewrite E in E'. inversion E'; subst b'.
    pose proof (grows_counter _ _ _ _ G1) as Hn1.
    change (node_counter (if_entry test b)) with (S (node_counter b)) in Hn1.
    assert (F1 : forward b1).
    { apply (branch_walk_forward (node_id (node_counter b)) "True" body Hbody None
               (if_entry test b)
               (node_id (node_counter b)) b1 He eq_refl);
        [apply created_node_id; simpl; lia | now apply forward_entry | exact E1]. }
    assert (F2 : forward b2).
    { apply (branch_walk_forward (node_id (node_counter b)) "False" orelse Horelse None
               (set_current_node (Some (node_id (node_counter b))) b1)
               (node_id (node_counter b)) b2 He2 eq_refl);
        [apply created_node_id; simpl; lia | now apply (forward_same b1) | exact E2]. }
    now apply (forward_same b2).
  - change (visit (Return text) b) with (visit_Return text b) in E.
    rewrite visit_Return_eq in E. inversion E; subst b'. now apply forward_leaf.
  - change (visit (Expr text) b) with (generic_visit_Expr text b) in E.
    rewrite generic_visit_Expr_eq in E. inversion E; subst b'. now apply forward_leaf.
  - exact (visit_children_forward children Hch b b' Hb F E).
Qed.

(** X4: every edge of a build goes from a node to a node created later.
    So no edge is a loop, both ends of every edge are nodes of the graph, no
    edge enters the first node, and the graph has no cycle. *)
Theorem edges_go_forward (tree : ast) :
  exists b,
    build tree = Ok b /\
    (forall t h l, In (EdgeStmt t h l) (graph b) ->
       exists i j, i < j < node_counter b /\ t = node_id i /\ h = node_id j) /\
    (forall t h l, In (EdgeStmt t h l) (graph b) ->
       t <> h /\ In t (node_names (graph b)) /\ In h (node_names (graph b))) /\
    filter (enters (node_id 0)) (graph b) = [].
Proof.
  destruct (build_succeeds tree) as (b & E). exists b. split; [exact E|].
  assert (F : forward b).
  { apply (visit_is_forward tree init b wf_init); [|exact E].
    intros t h l [Hi|[]]. discriminate. }
  destruct (node_names_fresh tree init b wf_init E) as [_ N].
  simpl in N. rewrite Nat.sub_0_r in N.
  split; [exact F|]. split.
  - intros t h l Hi. destruct (F t h l Hi) as (i & j & Hij & -> & ->).
    split; [intros Heq; apply node_id_inj in Heq; lia|].
    rewrite N. split; apply in_map, in_seq; lia.
  - apply filter_none. intros x Hx. destruct x as [| |t h l]; try reflexivity.
    destruct (F t h l Hx) as (i & j & Hij & -> & ->).
    cbn [enters]. apply enters_other. lia.
Qed.

(** ** The labelled edges of a conditional with two branches *)

(** X5: out of its condition node a conditional draws at most one "True"
    and at most one "False" edge: one for each branch in which some statement
    leaves the cursor on a node of its own, none for a branch without. *)
Theorem labelled_edges_of_conditional (test : string) (body orelse : list ast)
        (b : builder) :
  wf b ->
  let c := node_id (node_counter b) in
  exists b',
    visit (If test body orelse) b = Ok b' /\
    length (filter (leaves c (Some "True")) (graph b'))
    = (if existsb moves_cursor body then 1 else 0) /\
    length (filter (leaves c (Some "False")) (graph b'))
    = (if existsb moves_cursor orelse then 1 else 0).
Proof.
  intros Hb c.
  destruct (visit_If_grows test body orelse (all_visit_ok body) (all_visit_ok orelse) b Hb)
    as (b1 & b2 & xs & ys & E1 & E2 & E & He & G1 & He2 & G2 & G).
  fold c in E1, E2, G1, G2, He2.
  pose proof (grows_counter _ _ _ _ G1) as Hn1.
  change (node_counter (if_entry test b)) with (S (node_counter b)) in Hn1.
  assert (Hce : created 0 (node_counter (if_entry test b)) c)
    by (apply created_node_id; simpl; lia).
  assert (Hce2 : created 0 (node_counter (set_current_node (Some c) b1)) c)
    by (apply created_node_id; simpl; lia).
  destruct (walk_leaves c "True" body None (if_entry test b) c b1 He eq_refl Hce E1)
    as (xs' & Hg1 & CntT & _).
  rewrite (grows_graph _ _ _ _ G1) in Hg1. apply app_inv_head in Hg1. subst xs'.
  destruct (walk_leaves c "False" orelse None (set_current_node (Some c) b1) c b2
                        He2 eq_refl Hce2 E2)
    as (ys' & Hg2 & CntF & _).
  rewrite (grows_graph _ _ _ _ G2) in Hg2. apply app_inv_head in Hg2. subst ys'.
  exists (set_current_node (current_node b) b2). split; [exact E|].
  rewrite (grows_graph _ _ _ _ G), !filter_app.
  unfold c at 1 4. rewrite !(leaves_old b _ _ Hb (le_n _)). fold c.
  rewrite !leaves_entry. cbn [app]. rewrite !length_app. split.
  - rewrite (leaves_walk_other c "False" "True" _ _ ys G2 Hce2) by discriminate.
    rewrite (CntT eq_refl eq_refl). simpl. lia.
  - rewrite (leaves_walk_other c "True" "False" _ _ xs G1 Hce) by discriminate.
    rewrite (CntF eq_refl eq_refl). reflexivity.
Qed.

(** ** A conditional over plain statements *)

Lemma leaf_visit (stmt : ast) (b : builder) :
  is_leaf stmt = true ->
  exists text fillcolor,
    statements stmt = [(text, fillcolor)] /\
    visit stmt b = Ok (after_leaf text fillcolor b).
Proof.
  destruct stmt as [test body orelse|text|text|children]; try discriminate; intros _.
  - exists text, "lightgreen". split; [reflexivity|]. apply visit_Return_eq.
  - exists text, "lightyellow". split; [reflexivity|]. apply generic_visit_Expr_eq.
Qed.

Lemma branch_walk_leaves (c label : string) (stmts : list ast) :
  forallb is_leaf stmts = true ->
  forall branch b p,
    wf b -> current_node b = Some p -> created 0 (node_counter b) c ->
    (branch = None -> p = c) ->
    exists b',
      branch_walk visit c label stmts branch b = Ok b' /\
      graph b' = graph b ++ branch_items label p (node_counter b)
                                         (flat_map statements stmts) /\
      node_counter b' = node_counter b + length stmts.
Proof.
  induction stmts as [|stmt rest IH]; intros Hl branch b p Hb Hp Hc Hbr.
  - exists b. simpl. now rewrite app_nil_r, Nat.add_0_r.
  - cbn [forallb] in Hl. apply andb_true_iff in Hl. destruct Hl as [Hl1 Hl2].
    destruct (leaf_visit stmt (set_suppress_edge true b) Hl1)
      as (text & fillcolor & Hst & E1).
    set (b1 := after_leaf text fillcolor (set_suppress_edge true b)) in *.
    set (s := node_id (node_counter b)).
    pose proof (wf_cursor b Hb p Hp) as Hpc.
    assert (Hsp : s <> p).
    { intros Heq. rewrite <- Heq in Hpc. apply created_node_id in Hpc. lia. }
    pose proof (walk_step_move c label stmt rest branch b b1 p s E1 Hp eq_refl Hsp) as W.
    assert (Htl : (if is_None branch then c else p) = p).
    { destruct branch; [reflexivity|]. symmetry. now apply Hbr. }
    rewrite Htl in W.
    set (b2 := emit (EdgeStmt p s (Some label)) (set_suppress_edge false b1)) in *.
    assert (Hb1 : wf b1) by exact (visit_wf _ _ _ (wf_set_suppress true b Hb) E1).
    assert (Hb2 : wf b2).
    { apply wf_emit_edge; [now apply wf_set_suppress | |].
      - eapply created_mono; [| |exact Hpc]; simpl; lia.
      - apply created_node_id. simpl. lia. }
    destruct (IH Hl2 (if is_None branch then Some s else branch) b2 s Hb2 eq_refl)
      as (b' & E' & G' & N').
    { eapply created_mono; [| |exact Hc]; simpl; lia. }
    { destruct branch; discriminate. }
    exists b'. split; [now rewrite W|]. split.
    + rewrite G'. unfold b2, b1, after_leaf, leaf_items.
      cbn [graph emit set_suppress_edge suppress_edge current_node node_counter
           flat_map].
      rewrite Hst, Hp, andb_false_r. cbn [app branch_items].
      rewrite <- !app_assoc. reflexivity.
    + rewrite N'. simpl. lia.
Qed.

Lemma leaves_statements_length (stmts : list ast) :
  forallb is_leaf stmts = true -> length (flat_map statements stmts) = length stmts.
Proof.
  induction stmts as [|stmt rest IH]; intros Hl; [reflexivity|].
  cbn [forallb] in Hl. apply andb_true_iff in Hl. destruct Hl as [Hl1 Hl2].
  cbn [flat_map]. rewrite length_app, (IH Hl2).
  destruct stmt; try discriminate; reflexivity.
Qed.

(** X6: a conditional whose branches hold only return and expression
    statements emits its condition node and the edge from its predecessor,
    then for each branch the nodes of its statements in a chain that starts
    at the condition node, every edge of the chain with the label of the
    branch; the cursor ends where it was. *)
Theorem conditional_over_plain_statements (test : string) (body orelse : list ast)
        (b : builder) :
  wf b -> forallb is_leaf body = true -> forallb is_leaf orelse = true ->
  let n := node_counter b in
  exists b',
    visit (If test body orelse) b = Ok b' /\
    graph b' = graph b ++ entry_items test b
               ++ branch_items "True" (node_id n) (S n) (flat_map statements body)
               ++ branch_items "False" (node_id n) (S n + length body)
                               (flat_map statements orelse) /\
    current_node b' = current_node b /\
    node_counter b' = S n + length body + length orelse.
Proof.
  intros Hb Hbody Horelse n.
  assert (He : wf (if_entry test b)).
  { eapply grows_wf; [exact Hb | apply entry_grows |].
    intros l t. now apply visit_tails_created. }
  destruct (branch_walk_leaves (node_id n) "True" body Hbody None (if_entry test b)
              (node_id n) He eq_refl) as (b1 & E1 & G1 & N1);
    [apply created_node_id; simpl; lia | reflexivity |].
  change (node_counter (if_entry test b)) with (S n) in G1, N1.
  assert (Hb1 : wf b1).
  { destruct (branch_walk_emits (node_id n) "True" body None (if_entry test b) b1
                (node_id n) He eq_refl) as (xs & Gx);
      [apply created_node_id; simpl; lia | exact E1 |].
    eapply grows_wf; [exact He | exact Gx |].
    intros l t. apply walk_tails_created; [exact He|].
    apply created_node_id. simpl. lia. }
  assert (He2 : wf (set_current_node (Some (node_id n)) b1)).
  { apply wf_set_current; [exact Hb1|]. intros s Hs. inversion Hs; subst s.
    apply created_node_id. lia. }
  destruct (branch_walk_leaves (node_id n) "False" orelse Horelse None
              (set_current_node (Some (node_id n)) b1) (node_id n) He2 eq_refl)
    as (b2 & E2 & G2 & N2);
    [apply created_node_id; simpl; lia | reflexivity |].
  change (node_counter (set_current_node (Some (node_id n)) b1))
    with (node_counter b1) in G2, N2.
  change (graph (set_current_node (Some (node_id n)) b1)) with (graph b1) in G2.
  exists (set_current_node (current_node b) b2). split.
  - rewrite visit_If_eq. cbv zeta. fold n. rewrite E1. cbn [bind]. rewrite E2.
    reflexivity.
  - cbn [graph current_node node_counter set_current_node].
    split; [|split; [reflexivity | lia]].
    rewrite G2, G1, N1. cbn [graph if_entry]. now rewrite <- !app_assoc.
Qed.

(** ** Labelled edges enter the nodes of plain statements *)

Lemma leaf_node_app (g items : list item) (s : string) :
  leaf_node g s -> leaf_node (g ++ items) s.
Proof.
  intros (label & fillcolor & Hi & Hc). exists label, fillcolor.
  split; [apply in_or_app; now left | exact Hc].
Qed.

Lemma labels_enter_leaves_app (b b' : builder) (items : list item) :
  labels_enter_leaves b -> graph b' = graph b ++ items ->
  (forall t h l, In (EdgeStmt t h (Some l)) items -> leaf_node (graph b') h) ->
  labels_enter_leaves b'.
Proof.
  intros Q Hg Hi t h l Hin. pose proof Hin as Hin'. rewrite Hg in Hin'.
  apply in_app_or in Hin'. destruct Hin' as [Hin'|Hin'].
  - rewrite Hg. apply leaf_node_app. exact (Q t h l Hin').
  - exact (Hi t h l Hin').
Qed.

Lemma labels_after_leaf (text fillcolor : string) (b : builder) :
  fillcolor = "lightgreen" \/ fillcolor = "lightyellow" ->
  labels_enter_leaves b ->
  labels_enter_leaves (after_leaf text fillcolor b) /\
  exists s, current_node (after_leaf text fillcolor b) = Some s /\
            leaf_node (graph (after_leaf text fillcolor b)) s.
Proof.
  intros Hc Q. split.
  - apply (labels_enter_leaves_app b (after_leaf text fillcolor b)
             (leaf_items text fillcolor b) Q eq_refl).
    intros t h l Hi. unfold leaf_items in Hi. destruct Hi as [Hi|Hi]; [discriminate|].
    destruct (current_node b) as [p|]; [|destruct Hi].
    destruct (negb (p =? "") && negb (suppress_edge b)); [|destruct Hi].
    destruct Hi as [Hi|[]]. discriminate.
  - exists (node_id (node_counter b)). split; [reflexivity|].
    exists (fill text), fillcolor. split; [|exact Hc].
    cbn [graph after_leaf]. apply in_or_app. right. now left.
Qed.

Lemma labels_if_entry (test : string) (b : builder) :
  labels_enter_leaves b -> labels_enter_leaves (if_entry test b).
Proof.
  intros Q.
  apply (labels_enter_leaves_app b (if_entry test b) (entry_items test b) Q eq_refl).
  intros t h l Hi. unfold entry_items in Hi. destruct Hi as [Hi|Hi]; [discriminate|].
  destruct (current_node b) as [p|]; [|destruct Hi].
  destruct (negb (p =? "")); [|destruct Hi].
  destruct Hi as [Hi|[]]. discriminate.
Qed.

Lemma labels_same (b b' : builder) :
  labels_enter_leaves b -> graph b' = graph b -> labels_enter_leaves b'.
Proof. intros Q Hg t h l Hi. rewrite Hg in *. exact (Q t h l Hi). Qed.

Lemma visit_children_labels (children : list ast) :
  Forall visit_labels children ->
  forall b b', wf b -> labels_enter_leaves b ->
    visit_children visit children b = Ok b' ->
    labels_enter_leaves b' /\
    (existsb moves_cursor children = true ->
     exists s, current_node b' = Some s /\ leaf_node (graph b') s).
Proof.
  induction 1 as [|child rest Hc _ IH]; intros b b' Hb Q E.
  - inversion E; subst b'. split; [exact Q | discriminate].
  - apply visit_children_inv in E. destruct E as (b1 & E1 & E2).
    pose proof (visit_wf _ _ _ Hb E1) as Hb1.
    destruct (Hc b b1 Hb Q E1) as [Q1 M1].
    destruct (IH b1 b' Hb1 Q1 E2) as [Q2 M2].
    split; [exact Q2|]. cbn [existsb]. intros Hm.
    destruct (existsb moves_cursor rest) eqn:Hr; [now apply M2|].
    rewrite orb_false_r in Hm. destruct (M1 Hm) as (s & K & L).
    pose proof (visit_children_cursor rest
                  (proj2 (Forall_forall _ rest) (fun x _ => visit_cursor x))
                  b1 b' Hb1 E2) as K2.
    rewrite Hr in K2. unfold cursor_after in K2.
    destruct (visit_children_grows rest (all_visit_ok rest) b1 Hb1)
      as (b2 & ys & E2' & G2).
    rewrite E2 in E2'. inversion E2'; subst b2.
    exists s. split; [congruence|].
    rewrite (grows_graph _ _ _ _ G2). now apply leaf_node_app.
Qed.

Lemma branch_walk_labels (c label : string) (stmts : list ast) :
  Forall visit_labels stmts ->
  forall branch b p b',
    wf b -> current_node b = Some p -> created 0 (node_counter b) c ->
    labels_enter_leaves b ->
    branch_walk visit c label stmts branch b = Ok b' -> labels_enter_leaves b'.
Proof.
  induction 1 as [|stmt rest Hs _ IH]; intros branch b p b' Hb Hp Hc Q E.
  - now inversion E; subst.
  - pose proof (wf_set_suppress true b Hb) as Hb0.
    destruct (visit_grows stmt _ Hb0) as (b1 & xs & E1 & G1).
    pose proof (visit_wf _ _ _ Hb0 E1) as Hb1.
    pose proof (grows_counter _ _ _ _ G1) as Hn1.
    change (node_counter (set_suppress_edge true b)) with (node_counter b) in Hn1.
    destruct (Hs (set_suppress_edge true b) b1 Hb0) as [Q1 M1];
      [now apply (labels_same b) | exact E1 |].
    pose proof (visit_cursor stmt _ b1 Hb0 E1) as C1.
    pose proof (wf_cursor b Hb p Hp) as Hpc.
    unfold cursor_after in C1.
    destruct (moves_cursor stmt).
    + destruct C1 as (s & Hs' & K).
      change (created (node_counter b) (node_counter b1) s) in Hs'.
      destruct (M1 eq_refl) as (s' & K' & L). rewrite K in K'. inversion K'; subst s'.
      assert (Hsp : s <> p).
      { intros ->. eapply created_apart; [| exact Hpc | exact Hs']. lia. }
      rewrite (walk_step_move c label stmt rest branch b b1 p s E1 Hp K Hsp) in E.
      set (tl := if is_None branch then c else p) in *.
      assert (Htl : created 0 (node_counter b) tl)
        by (unfold tl; now destruct (is_None branch)).
      set (b2 := emit (EdgeStmt tl s (Some label)) (set_suppress_edge false b1)) in *.
      assert (Hb2 : wf b2).
      { apply wf_emit_edge; [now apply wf_set_suppress | |].
        - change (created 0 (node_counter b1) tl).
          eapply created_mono; [| |exact Htl]; lia.
        - change (created 0 (node_counter b1) s).
          eapply created_mono; [| |exact Hs']; lia. }
      apply (IH (if is_None branch then Some s else branch) b2 s b' Hb2 K);
        [| |exact E].
      * change (created 0 (node_counter b1) c). eapply created_mono; [| |exact Hc]; lia.
      * apply (labels_enter_leaves_app b1 b2 [EdgeStmt tl s (Some label)] Q1 eq_refl).
        intros t h l [Hi|[]]. inversion Hi; subst.
        change (graph b2) with (graph b1 ++ [EdgeStmt tl h (Some l)]).
        now apply leaf_node_app.
    + change (current_node b1 = current_node b) in C1.
      rewrite (walk_step_stay c label stmt rest branch b b1 E1 C1) in E.
      apply (IH branch (set_suppress_edge false b1) p b');
        [now apply wf_set_suppress | cbn [current_node set_suppress_edge]; congruence
        | | now apply (labels_same b1) | exact E].
      change (created 0 (node_counter b1) c). eapply created_mono; [| |exact Hc]; lia.
Qed.

Lemma visit_has_labels (node : ast) : visit_labels node.
Proof.
  induction node as [test body orelse Hbody Horelse|text|text|children Hch]
    using ast_ind; intros b b' Hb Q E.
  - split; [|discriminate].
    destruct (visit_If_grows test body orelse (all_visit_ok body)
                             (all_visit_ok orelse) b Hb)
      as (b1 & b2 & xs & ys & E1 & E2 & E' & He & G1 & He2 & G2 & _).
    rewrite E in E'. inversion E'; subst b'.
    pose proof (grows_counter _ _ _ _ G1) as Hn1.
    change (node_counter (if_entry test b)) with (S (node_counter b)) in Hn1.
    assert (Q1 : labels_enter_leaves b1).
    { apply (branch_walk_labels (node_id (node_counter b)) "True" body Hbody None
               (if_entry test b) (node_id (node_counter b)) b1 He eq_refl);
        [apply created_node_id; simpl; lia | now apply labels_if_entry | exact E1]. }
    assert (Q2 : labels_enter_leaves b2).
    { apply (branch_walk_labels (node_id (node_counter b)) "False" orelse Horelse None
               (set_current_node (Some (node_id (node_counter b))) b1)
               (node_id (node_counter b)) b2 He2 eq_refl);
        [apply created_node_id; simpl; lia | now apply (labels_same b1) | exact E2]. }
    now apply (labels_same b2).
  - change (visit (Return text) b) with (visit_Return text b) in E.
    rewrite visit_Return_eq in E. inversion E; subst b'.
    destruct (labels_after_leaf text "lightgreen" b (or_introl eq_refl) Q) as [Q' M].
    split; [exact Q' | intros _; exact M].
  - change (visit (Expr text) b) with (generic_visit_Expr text b) in E.
    rewrite generic_visit_Expr_eq in E. inversion E; subst b'.
    destruct (labels_after_leaf text "lightyellow" b (or_intror eq_refl) Q) as [Q' M].
    split; [exact Q' | intros _; exact M].
  - exact (visit_children_labels children Hch b b' Hb Q E).
Qed.

Lemma node_of_name (g : list item) (s l1 c1 l2 c2 : string) :
  NoDup (node_names g) ->
  In (NodeStmt s l1 c1) g -> In (NodeStmt s l2 c2) g -> l1 = l2 /\ c1 = c2.
Proof.
  induction g as [|i g IH]; intros D H1 H2; [destruct H1|].
  assert (Hin : forall l c, In (NodeStmt s l c) g -> In s (node_names g)).
  { intros l c Hi. unfold node_names. apply in_flat_map.
    exists (NodeStmt s l c). split; [exact Hi | now left]. }
  destruct i as [kw attrs|name label fillcolor|t h l].
  - destruct H1 as [H1|H1]; [discriminate|]. destruct H2 as [H2|H2]; [discriminate|].
    now apply IH.
  - cbn [node_names flat_map app] in D. inversion D as [|x xs Hnot D']; subst.
    destruct H1 as [H1|H1], H2 as [H2|H2].
    + inversion H1; inversion H2; subst. now split.
    + inversion H1; subst. elim Hnot. exact (Hin _ _ H2).
    + inversion H2; subst. elim Hnot. exact (Hin _ _ H1).
    + now apply IH.
  - destruct H1 as [H1|H1]; [discriminate|]. destruct H2 as [H2|H2]; [discriminate|].
    now apply IH.
Qed.

(** X10: in every build an edge labelled "True" or "False" enters the node
    of a return or of an expression statement, and never a condition node:
    a conditional, nested or in an [elif] chain, is only ever reached by an
    edge without label. *)
Theorem labelled_edges_enter_plain_statements (tree : ast) :
  exists b,
    build tree = Ok b /\
    forall t h l, In (EdgeStmt t h (Some l)) (graph b) ->
      (exists label fillcolor,
          In (NodeStmt h label fillcolor) (graph b) /\
          (fillcolor = "lightgreen" \/ fillcolor = "lightyellow")) /\
      (forall label, ~ In (NodeStmt h label "lightblue") (graph b)).
Proof.
  destruct (build_succeeds tree) as (b & E). exists b. split; [exact E|].
  assert (D : NoDup (node_names (graph b))).
  { destruct (node_names_fresh tree init b wf_init E) as [_ N].
    rewrite N. simpl. apply NoDup_node_ids. }
  assert (Q0 : labels_enter_leaves init).
  { intros t h l [Hi|[]]. discriminate. }
  pose proof (proj1 (visit_has_labels tree init b wf_init Q0 E)) as Q.
  intros t h l Hi. destruct (Q t h l Hi) as (label & fillcolor & Hn & Hc).
  split; [now exists label, fillcolor|].
  intros label' Hn'. destruct (node_of_name _ _ _ _ _ _ D Hn Hn') as [_ Hcc].
  destruct Hc as [Hc|Hc]; congruence.
Qed.

(** ** What [main] prints *)

(** X8: whenever the input file can be read, [main] prints the single line
    "Decision tree generated: " followed by whatever
    [generate_decision_tree] returned. When the source does not parse that
    line reads "Decision tree generated: Syntax error: ...", and no image
    was rendered. *)
Theorem main_reports_generated (ast_parse : string -> result ast)
        (render : list item -> string -> result unit)
        (read_file : string -> read_result)
        (input_file output code : string) :
  read_file input_file = Contents code ->
  main ast_parse render read_file input_file output
  = ([("Decision tree generated: "
       ++ fst (generate_decision_tree ast_parse render code output))%string],
     snd (generate_decision_tree ast_parse render code output)) /\
  (forall msg, ast_parse code = Raise (SyntaxError msg) ->
     main ast_parse render read_file input_file output
     = ([("Decision tree generated: Syntax error: " ++ msg)%string], [])).
Proof.
  intros H. unfold main. rewrite H. split.
  - now destruct (generate_decision_tree ast_parse render code output).
  - intros msg Hp. unfold generate_decision_tree. rewrite Hp. reflexivity.
Qed.

(** ** The limits of the interpreter *)

Lemma cut_refl (r : result builder) : cut r r.
Proof. now left. Qed.

Lemma cut_bind (r r' : result builder) (k k' : builder -> result builder) :
  cut r r' -> (forall x, cut (k x) (k' x)) -> cut (bind r k) (bind r' k').
Proof.
  intros [->|(e & -> & L)] H.
  - destruct r' as [x|e]; simpl; [apply H|apply cut_refl].
  - right. exists e. now split.
Qed.

(** *** Two visitors that agree on the statements walked *)

Lemma visit_children_ext (v v' : ast -> builder -> result builder)
      (children : list ast) :
  Forall (fun c => forall b, v c b = v' c b) children ->
  forall b, visit_children v children b = visit_children v' children b.
Proof.
  induction 1 as [|c cs Hc _ IH]; intros b; cbn [visit_children]; [reflexivity|].
  rewrite Hc. destruct (v' c b) as [b1|e]; cbn [bind]; [apply IH|reflexivity].
Qed.

Lemma branch_walk_ext (v v' : ast -> builder -> result builder)
      (c label : string) (stmts : list ast) :
  Forall (fun s => forall b, v s b = v' s b) stmts ->
  forall branch b,
    branch_walk v c label stmts branch b = branch_walk v' c label stmts branch b.
Proof.
  induction 1 as [|s ss Hs _ IH]; intros branch b; cbn [branch_walk];
    [reflexivity|].
  cbv zeta. rewrite Hs.
  destruct (v' s (set_suppress_edge true b)) as [b1|e]; cbn [bind]; [|reflexivity].
  destruct (ne (current_node (set_suppress_edge false b1)) (current_node b)
            && is_None branch).
  - destruct (graph_edge _ _ _ _) as [b2|e]; cbn [bind]; [apply IH|reflexivity].
  - destruct (ne (current_node (set_suppress_edge false b1)) (current_node b));
      [|apply IH].
    destruct (graph_edge _ _ _ _) as [b2|e]; cbn [bind]; [apply IH|reflexivity].
Qed.

Lemma visit_If_ext (v v' : ast -> builder -> result builder)
      (test : string) (body orelse : list ast) (b : builder) :
  Forall (fun s => forall b, v s b = v' s b) body ->
  Forall (fun s => forall b, v s b = v' s b) orelse ->
  visit_If v test body orelse b = visit_If v' test body orelse b.
Proof.
  intros Hb Ho. unfold visit_If.
  destruct (create_node _ _ b) as [c b0]. cbv zeta.
  destruct (if truthy (current_node b0)
            then graph_edge (current_node b0) (Some c) None b0
            else Ok b0) as [b1|e]; cbn [bind]; [|reflexivity].
  rewrite (branch_walk_ext v v' c "True" body Hb).
  destruct (branch_walk v' c "True" body None _) as [b2|e]; cbn [bind];
    [|reflexivity].
  now rewrite (branch_walk_ext v v' c "False" orelse Ho).
Qed.

(** *** A visitor that stops where a limit is met *)

Lemma visit_children_cut (v v' : ast -> builder -> result builder)
      (children : list ast) :
  Forall (fun c => forall b, cut (v c b) (v' c b)) children ->
  forall b, cut (visit_children v children b) (visit_children v' children b).
Proof.
  induction 1 as [|c cs Hc _ IH]; intros b; cbn [visit_children];
    [apply cut_refl|].
  apply cut_bind; [apply Hc|exact IH].
Qed.

Lemma branch_walk_cut (v v' : ast -> builder -> result builder)
      (c label : string) (stmts : list ast) :
  Forall (fun s => forall b, cut (v s b) (v' s b)) stmts ->
  forall branch b,
    cut (branch_walk v c label stmts branch b)
        (branch_walk v' c label stmts branch b).
Proof.
  induction 1 as [|s ss Hs _ IH]; intros branch b; cbn [branch_walk];
    [apply cut_refl|].
  cbv zeta. apply cut_bind; [apply Hs|]. intros b1.
  destruct (ne (current_node (set_suppress_edge false b1)) (current_node b)
            && is_None branch).
  - apply cut_bind; [apply cut_refl|]. intros b2. apply IH.
  - destruct (ne (current_node (set_suppress_edge false b1)) (current_node b));
      [|apply IH].
    apply cut_bind; [apply cut_refl|]. intros b2. apply IH.
Qed.

Lemma visit_If_cut (v v' : ast -> builder -> result builder)
      (test : string) (body orelse : list ast) (b : builder) :
  Forall (fun s => forall b, cut (v s b) (v' s b)) body ->
  Forall (fun s => forall b, cut (v s b) (v' s b)) orelse ->
  cut (visit_If v test body orelse b) (visit_If v' test body orelse b).
Proof.
  intros Hb Ho. unfold visit_If.
  destruct (create_node _ _ b) as [c b0]. cbv zeta.
  apply cut_bind; [apply cut_refl|]. intros b1.
  apply cut_bind; [apply branch_walk_cut, Hb|]. intros b2.
  apply cut_bind; [apply branch_walk_cut, Ho|]. intros b3. apply cut_refl.
Qed.

Lemma cut_overflow (r : result builder) : cut (Raise RecursionError) r.
Proof. right. exists RecursionError. split; [reflexivity|now left]. Qed.

Lemma cut_library (k : nat) (st : string * string) (e : exn)
      (r : result builder) :
  library k st = Some e -> cut (Raise e) r.
Proof. intros H. right. exists e. split; [reflexivity|]. right. now exists k, st. Qed.

(** Within the limits the visitor does what [visit] does, or it stops on an
    exception of the limits. *)
Lemma visit_on_stack_cut (node : ast) :
  forall frames b, cut (visit_on_stack frames node b) (visit node b).
Proof.
  induction node as [test body orelse Hb Ho|text|text|children Hc] using ast_ind;
    intros frames b; cbn [visit_on_stack visit].
  - destruct (2 <=? frames)%nat; [|apply cut_overflow].
    destruct (library _ _) as [e|] eqn:L; [exact (cut_library _ _ _ _ L)|].
    apply visit_If_cut.
    + eapply Forall_impl; [|exact Hb]. intros s Hs b0. apply Hs.
    + eapply Forall_impl; [|exact Ho]. intros s Hs b0. apply Hs.
  - destruct (2 <=? frames)%nat; [|apply cut_overflow].
    destruct (library _ _) as [e|] eqn:L; [exact (cut_library _ _ _ _ L)|].
    apply cut_refl.
  - destruct (2 <=? frames)%nat; [|apply cut_overflow].
    destruct (library _ _) as [e|] eqn:L; [exact (cut_library _ _ _ _ L)|].
    apply cut_refl.
  - destruct (4 <=? frames)%nat; [|apply cut_overflow].
    apply visit_children_cut.
    eapply Forall_impl; [|exact Hc]. intros s Hs b0. apply Hs.
Qed.

(** *** A visit that fits *)

Lemma fits_all (P : nat -> ast -> Prop) (frames : nat) (stmts : list ast) :
  Forall (fun s => forall k, fits k s = true -> P k s) stmts ->
  forallb (fits frames) stmts = true ->
  Forall (P frames) stmts.
Proof.
  intros H F. rewrite forallb_forall in F. rewrite Forall_forall in H |- *.
  intros s Hs. apply (H s Hs). now apply F.
Qed.

Lemma visit_on_stack_fits (node : ast) :
  forall frames, fits frames node = true ->
  forall b, visit_on_stack frames node b = visit node b.
Proof.
  induction node as [test body orelse Hb Ho|text|text|children Hc] using ast_ind;
    intros frames F b; cbn [fits] in F; cbn [visit_on_stack visit].
  - apply andb_true_iff in F. destruct F as [F Fo].
    apply andb_true_iff in F. destruct F as [F Fb].
    apply andb_true_iff in F. destruct F as [F1 F2].
    rewrite F1. unfold returns in F2.
    destruct (library _ _); [discriminate|].
    apply visit_If_ext.
    + exact (fits_all (fun k s => forall b0, visit_on_stack k s b0 = visit s b0)
                      _ _ Hb Fb).
    + exact (fits_all (fun k s => forall b0, visit_on_stack k s b0 = visit s b0)
                      _ _ Ho Fo).
  - apply andb_true_iff in F. destruct F as [F1 F2].
    rewrite F1. unfold returns in F2. now destruct (library _ _).
  - apply andb_true_iff in F. destruct F as [F1 F2].
    rewrite F1. unfold returns in F2. now destruct (library _ _).
  - apply andb_true_iff in F. destruct F as [F1 F2]. rewrite F1.
    apply visit_children_ext.
    exact (fits_all (fun k s => forall b0, visit_on_stack k s b0 = visit s b0)
                    _ _ Hc F2).
Qed.

(** *** A visit that returns *)

Lemma visit_children_returns (v : ast -> builder -> result builder)
      (children : list ast) :
  forall b b', visit_children v children b = Ok b' ->
  Forall (fun c => exists bi bo, v c bi = Ok bo) children.
Proof.
  induction children as [|c cs IH]; intros b b' H; [constructor|].
  cbn [visit_children] in H. apply bind_inv in H. destruct H as (b1 & E & H).
  constructor; [now exists b, b1|exact (IH _ _ H)].
Qed.

Lemma branch_walk_returns (v : ast -> builder -> result builder)
      (c label : string) (stmts : list ast) :
  forall branch b b', branch_walk v c label stmts branch b = Ok b' ->
  Forall (fun s => exists bi bo, v s bi = Ok bo) stmts.
Proof.
  induction stmts as [|s ss IH]; intros branch b b' H; [constructor|].
  cbn [branch_walk] in H. cbv zeta in H.
  apply bind_inv in H. destruct H as (b1 & E & H).
  constructor; [now exists (set_suppress_edge true b), b1|].
  destruct (ne (current_node (set_suppress_edge false b1)) (current_node b)
            && is_None branch).
  - apply bind_inv in H. destruct H as (b2 & _ & H). exact (IH _ _ _ H).
  - destruct (ne (current_node (set_suppress_edge false b1)) (current_node b));
      [|exact (IH _ _ _ H)].
    apply bind_inv in H. destruct H as (b2 & _ & H). exact (IH _ _ _ H).
Qed.

Lemma visit_If_returns (v : ast -> builder -> result builder)
      (test : string) (body orelse : list ast) (b b' : builder) :
  visit_If v test body orelse b = Ok b' ->
  Forall (fun s => exists bi bo, v s bi = Ok bo) body /\
  Forall (fun s => exists bi bo, v s bi = Ok bo) orelse.
Proof.
  unfold visit_If. destruct (create_node _ _ b) as [c b0]. cbv zeta. intros H.
  apply bind_inv in H. destruct H as (b1 & _ & H).
  apply bind_inv in H. destruct H as (b2 & Eb & H).
  apply bind_inv in H. destruct H as (b3 & Eo & _).
  split; [exact (branch_walk_returns _ _ _ _ _ _ _ Eb)
         |exact (branch_walk_returns _ _ _ _ _ _ _ Eo)].
Qed.

Lemma returned_fit (frames : nat) (stmts : list ast) :
  Forall (fun s => forall k b b', visit_on_stack k s b = Ok b' ->
                                  fits k s = true) stmts ->
  Forall (fun s => exists bi bo, visit_on_stack frames s bi = Ok bo) stmts ->
  forallb (fits frames) stmts = true.
Proof.
  intros IH R. apply forallb_forall. intros s Hs.
  rewrite Forall_forall in IH, R.
  destruct (R s Hs) as (bi & bo & E). exact (IH s Hs _ _ _ E).
Qed.

Lemma visit_on_stack_returns (node : ast) :
  forall frames b b', visit_on_stack frames node b = Ok b' ->
  fits frames node = true.
Proof.
  induction node as [test body orelse Hb Ho|text|text|children Hc] using ast_ind;
    intros frames b b' H; cbn [visit_on_stack] in H; cbn [fits]; unfold returns.
  - destruct (2 <=? frames)%nat; [|discriminate].
    destruct (library _ _); [discriminate|].
    apply visit_If_returns in H. destruct H as [Rb Ro].
    now rewrite (returned_fit _ _ Hb Rb), (returned_fit _ _ Ho Ro).
  - destruct (2 <=? frames)%nat; [|discriminate].
    now destruct (library _ _).
  - destruct (2 <=? frames)%nat; [|discriminate].
    now destruct (library _ _).
  - destruct (4 <=? frames)%nat; [|discriminate].
    apply visit_children_returns in H.
    now rewrite (returned_fit _ _ Hc H).
Qed.

(** From a well-formed builder the visitor returns exactly when the visit
    fits, with what [visit] returns; it raises an exception of the limits
    when the visit does not fit. *)
Lemma visit_on_stack_wf (frames : nat) (node : ast) (b : builder) :
  wf b ->
  (fits frames node = true ->
   exists b', visit_on_stack frames node b = Ok b' /\ visit node b = Ok b') /\
  (fits frames node = false ->
   exists e, visit_on_stack frames node b = Raise e /\ limit e).
Proof.
  intros W. destruct (visit_grows node b W) as (b' & items & E & _). split.
  - intros F. exists b'. split; [|exact E].
    now rewrite (visit_on_stack_fits node frames F).
  - intros F. destruct (visit_on_stack_cut node frames b) as [C|(e & C & L)].
    + rewrite E in C. apply visit_on_stack_returns in C. congruence.
    + now exists e.
Qed.

(** *** The visitor's own frames *)

Lemma own_frames_all (frames : nat) (stmts : list ast) :
  Forall (fun s => forall k, fits k s = true -> own_frames s <= k) stmts ->
  forallb (fits frames) stmts = true ->
  list_max (map own_frames stmts) <= frames.
Proof.
  intros H F. apply list_max_le. apply Forall_map.
  exact (fits_all (fun k s => own_frames s <= k) _ _ H F).
Qed.

Lemma fits_own_frames (node : ast) :
  forall frames, fits frames node = true -> own_frames node <= frames.
Proof.
  induction node as [test body orelse Hb Ho|text|text|children Hc] using ast_ind;
    intros frames F; cbn [fits] in F; cbn [own_frames].
  - apply andb_true_iff in F. destruct F as [F Fo].
    apply andb_true_iff in F. destruct F as [F Fb].
    apply andb_true_iff in F. destruct F as [F1 _].
    apply Nat.leb_le in F1.
    pose proof (own_frames_all _ _ Hb Fb). pose proof (own_frames_all _ _ Ho Fo).
    lia.
  - apply andb_true_iff in F. destruct F as [F1 _]. now apply Nat.leb_le in F1.
  - apply andb_true_iff in F. destruct F as [F1 _]. now apply Nat.leb_le in F1.
  - apply andb_true_iff in F. destruct F as [F1 F2]. apply Nat.leb_le in F1.
    pose proof (own_frames_all _ _ Hc F2). lia.
Qed.

Lemma deep_does_not_fit (frames : nat) (node : ast) :
  frames < own_frames node -> fits frames node = false.
Proof.
  intros H. destruct (fits frames node) eqn:F; [|reflexivity].
  apply fits_own_frames in F. lia.
Qed.

(** *** Unrecognised statements *)

Lemma visit_unrecognized (node : ast) :
  unrecognized node = true -> forall b, visit node b = Ok b.
Proof.
  induction node as [test body orelse _ _|text|text|cs Hcs] using ast_ind;
    intros Hu b; try discriminate.
  simpl in Hu. simpl. revert Hu b.
  induction Hcs as [|c cs Hc _ IH]; simpl; intros Hu b; [reflexivity|].
  apply andb_true_iff in Hu. destruct Hu as [Hu1 Hu2].
  rewrite (Hc Hu1 b). simpl. now apply IH.
Qed.

Lemma visit_on_stack_sound (frames : nat) (node : ast) (b b' : builder) :
  visit_on_stack frames node b = Ok b' -> visit node b = Ok b'.
Proof.
  intros H. destruct (visit_on_stack_cut node frames b) as [C|(e & C & _)];
    congruence.
Qed.

Lemma limit_overflow (e : exn) :
  (forall k st, library k st = None) -> limit e -> e = RecursionError.
Proof.
  intros Q [->|(k & st & L)]; [reflexivity|]. rewrite Q in L. discriminate.
Qed.

(** C8, as the code has it: the visit of an unrecognised node is the visits
    of its children in turn and nothing else, as long as the interpreter's
    limits allow: [generic_visit] creates no node for the node itself, every
    recognised statement reached through its children gets its node, and
    when no descendant is recognised the builder comes back unchanged, a
    build of such a tree having no node and no edge. When the visit does not
    fit the limits, which its depth alone can cause, the visitor raises. *)
Theorem unrecognized_is_transparent (frames : nat) (children : list ast)
        (b : builder) :
  wf b ->
  (fits frames (Other children) = true ->
   exists b',
     visit_on_stack frames (Other children) b = Ok b' /\
     visit_children visit children b = Ok b' /\
     nodes (graph b')
     = nodes (graph b) ++ numbered (node_counter b) (flat_map reached children) /\
     node_counter b' = node_counter b + length (flat_map reached children) /\
     (forallb unrecognized children = true -> b' = b)) /\
  (fits frames (Other children) = false ->
   exists e, visit_on_stack frames (Other children) b = Raise e /\ limit e) /\
  (frames < own_frames (Other children) ->
   fits frames (Other children) = false) /\
  (forallb unrecognized children = true ->
   fits stack (Other children) = true ->
   exists g, build_on_stack (Other children) = Ok g /\
             nodes (graph g) = [] /\ edges (graph g) = []).
Proof.
  intros W. destruct (visit_on_stack_wf frames (Other children) b W) as [Hf Hn].
  split; [|split; [exact Hn|split; [apply deep_does_not_fit|]]].
  - intros F. destruct (Hf F) as (b' & E & E'). exists b'.
    split; [exact E|]. split; [exact E'|].
    destruct (visit_is_traced (Other children) b b' E') as [(items & G & N & C & _) _].
    split; [now rewrite G, nodes_app, N|]. split; [exact C|].
    intros U. pose proof (visit_unrecognized (Other children) U b) as E0.
    congruence.
  - intros U F. exists init. split; [|split; reflexivity].
    unfold build_on_stack.
    rewrite (visit_on_stack_fits (Other children) stack F).
    exact (visit_unrecognized (Other children) U init).
Qed.

(** C9, as the code has it: when [ast.parse] raises,
    [generate_decision_tree] returns the message of its handler for that
    exception ("Syntax error: ..." for a [SyntaxError]) and never calls the
    renderer, so that no image is written. The builder returns on a tree
    exactly when its visit fits the interpreter's limits, and raises an
    exception of the limits otherwise; a tree whose visitor frames alone
    exceed the stack does not fit. *)
Theorem parse_failure_is_reported (ast_parse : string -> result ast)
        (render : list item -> string -> result unit)
        (code output_file : string) (e : exn) :
  ast_parse code = Raise e ->
  generate_decision_tree ast_parse render code output_file = (except_message e, []) /\
  (forall msg, e = SyntaxError msg ->
               fst (generate_decision_tree ast_parse render code output_file)
               = ("Syntax error: " ++ msg)%string) /\
  (forall tree,
     (fits stack tree = true ->
      exists b, build_on_stack tree = Ok b /\ build tree = Ok b) /\
     (fits stack tree = false ->
      exists e', build_on_stack tree = Raise e' /\ limit e') /\
     (stack < own_frames tree -> fits stack tree = false)).
Proof.
  intros H. unfold generate_decision_tree. rewrite H.
  split; [reflexivity|]. split.
  - intros msg ->. reflexivity.
  - intros tree. destruct (visit_on_stack_wf stack tree init wf_init) as [Hf Hn].
    split; [exact Hf|]. split; [exact Hn|]. apply deep_does_not_fit.
Qed.

(** X1: whenever the build returns, which it does when the visit fits the
    interpreter's limits, its nodes are those of the recognised statements
    the visitor reaches, conditionals included: one node each, in source
    order, named by its rank, with the wrapped text as label ("Condition: "
    before the test of a conditional) and the fill colour of its kind. *)
Theorem nodes_are_the_reached_statements (tree : ast) :
  (fits stack tree = true -> exists b, build_on_stack tree = Ok b) /\
  (forall b, build_on_stack tree = Ok b ->
     nodes (graph b) = numbered 0 (reached tree) /\
     length (nodes (graph b)) = length (reached tree) /\
     node_counter b = length (reached tree)).
Proof.
  split.
  - intros F.
    destruct (proj1 (visit_on_stack_wf stack tree init wf_init) F) as (b & E & _).
    now exists b.
  - intros b E. apply visit_on_stack_sound in E.
    destruct (visit_is_traced tree init b E) as [(items & G & N & C & _) _].
    assert (Hn : nodes (graph b) = numbered 0 (reached tree)).
    { rewrite G, nodes_app. exact N. }
    split; [exact Hn|]. split; [|exact C].
    rewrite Hn. unfold numbered.
    rewrite length_map, length_combine, length_seq. lia.
Qed.

(** X7: when the source parses, what [generate_decision_tree] does hangs on
    the builder. If the builder returns, the renderer is called exactly
    once, on the graph made of the tree, and the result is the path of the
    image when the renderer returns and the message of the handler when it
    raises. If the builder raises, the result is the message of the handler
    for its exception and the renderer is not called. The builder returns
    when the visit fits the interpreter's limits; when it does not, the
    exception is one of the limits, and the message is "Error: " with that
    of the [RecursionError] if no library call raises. *)
Theorem generate_on_parsed_source (ast_parse : string -> result ast)
        (render : list item -> string -> result unit)
        (code output_file : string) (tree : ast) :
  ast_parse code = Ok tree ->
  (forall b, build_on_stack tree = Ok b ->
     generate_decision_tree ast_parse render code output_file
     = (match render (graph b) output_file with
        | Ok _ => (output_file ++ ".png")%string
        | Raise e => except_message e
        end, [(graph b, output_file)])) /\
  (forall e, build_on_stack tree = Raise e ->
     generate_decision_tree ast_parse render code output_file
     = (except_message e, [])) /\
  (fits stack tree = true ->
   exists b, build_on_stack tree = Ok b /\ build tree = Ok b) /\
  (fits stack tree = false ->
   exists e, limit e /\ build_on_stack tree = Raise e /\
     generate_decision_tree ast_parse render code output_file
     = (except_message e, [])) /\
  (fits stack tree = false -> (forall k st, library k st = None) ->
   generate_decision_tree ast_parse render code output_file
   = (("Error: " ++ overflow_msg)%string, [])).
Proof.
  intros H. destruct (visit_on_stack_wf stack tree init wf_init) as [Hf Hn].
  assert (R : forall e, build_on_stack tree = Raise e ->
     generate_decision_tree ast_parse render code output_file
     = (except_message e, [])).
  { intros e E. unfold generate_decision_tree. now rewrite H, E. }
  split; [|split; [exact R|split; [exact Hf|split]]].
  - intros b E. unfold generate_decision_tree. rewrite H, E.
    now destruct (render (graph b) output_file).
  - intros F. destruct (Hn F) as (e & E & L). exists e.
    split; [exact L|]. split; [exact E|]. exact (R e E).
  - intros F Q. destruct (Hn F) as (e & E & L).
    rewrite (R e E), (limit_overflow e Q L). reflexivity.
Qed.

End Builder.

(** * Part II, continued: the wrapping of labels *)

Lemma skeleton_emit (i : item) (b : builder) :
  skeleton (emit i b) = emit (unlabel i) (skeleton b).
Proof. unfold skeleton, emit; simpl. now rewrite map_app. Qed.

Lemma skeleton_graph_edge (t h l : option string) (b : builder) :
  skeleton_of (graph_edge t h l b) = graph_edge t h l (skeleton b).
Proof.
  destruct t as [t'|], h as [h'|]; simpl; try reflexivity.
  now rewrite skeleton_emit.
Qed.

Lemma skeleton_after_leaf (fill : string -> string) (text fillcolor : string)
      (b : builder) :
  skeleton (after_leaf fill text fillcolor b)
  = after_leaf blank text fillcolor (skeleton b).
Proof.
  unfold skeleton, after_leaf, leaf_items; simpl. rewrite map_app. simpl.
  destruct (current_node b) as [p|]; [|reflexivity].
  now destruct (negb (p =? "") && negb (suppress_edge b)).
Qed.

Lemma skeleton_if_entry (fill : string -> string) (test : string) (b : builder) :
  skeleton (if_entry fill test b) = if_entry blank test (skeleton b).
Proof.
  unfold skeleton, if_entry, entry_items; simpl. rewrite map_app. simpl.
  destruct (current_node b) as [p|]; [|reflexivity].
  now destruct (negb (p =? "")).
Qed.

Lemma visit_children_skeleton (fill : string -> string) (children : list ast) :
  Forall (fun node => forall b, skeleton_of (visit fill node b)
                                = visit blank node (skeleton b)) children ->
  forall b, skeleton_of (visit_children (visit fill) children b)
            = visit_children (visit blank) children (skeleton b).
Proof.
  induction 1 as [|child rest Hc _ IH]; intros b; [reflexivity|].
  cbn [visit_children]. rewrite <- (Hc b).
  destruct (visit fill child b) as [b1|e]; simpl; [apply IH | reflexivity].
Qed.

Lemma branch_walk_skeleton (fill : string -> string) (c label : string)
      (stmts : list ast) :
  Forall (fun node => forall b, skeleton_of (visit fill node b)
                                = visit blank node (skeleton b)) stmts ->
  forall branch b,
    skeleton_of (branch_walk (visit fill) c label stmts branch b)
    = branch_walk (visit blank) c label stmts branch (skeleton b).
Proof.
  induction 1 as [|stmt rest Hs _ IH]; intros branch b; [reflexivity|].
  cbn [branch_walk].
  change (set_suppress_edge true (skeleton b))
    with (skeleton (set_suppress_edge true b)).
  rewrite <- (Hs (set_suppress_edge true b)).
  destruct (visit fill stmt (set_suppress_edge true b)) as [b1|e];
    [|reflexivity].
  cbn [bind skeleton_of].
  change (set_suppress_edge false (skeleton b1))
    with (skeleton (set_suppress_edge false b1)).
  change (current_node (skeleton (set_suppress_edge false b1)))
    with (current_node (set_suppress_edge false b1)).
  change (current_node (skeleton b)) with (current_node b).
  destruct (ne (current_node (set_suppress_edge false b1)) (current_node b)
            && is_None branch).
  - rewrite <- skeleton_graph_edge.
    destruct (graph_edge (Some c) (current_node (set_suppress_edge false b1))
                         (Some label) (set_suppress_edge false b1)) as [b2|e];
      [apply IH | reflexivity].
  - destruct (ne (current_node (set_suppress_edge false b1)) (current_node b)).
    + rewrite <- skeleton_graph_edge.
      destruct (graph_edge (current_node b)
                           (current_node (set_suppress_edge false b1))
                           (Some label) (set_suppress_edge false b1)) as [b2|e];
        [apply IH | reflexivity].
    + apply IH.
Qed.

(** One visit with any wrapping, less the labels, is the visit with no
    label text. *)
Lemma visit_has_skeleton (fill : string -> string) (node : ast) :
  forall b, skeleton_of (visit fill node b) = visit blank node (skeleton b).
Proof.
  induction node as [test body orelse Hbody Horelse|text|text|children Hch]
    using ast_ind; intros b.
  - rewrite !visit_If_eq. cbv zeta.
    change (node_counter (skeleton b)) with (node_counter b).
    change (current_node (skeleton b)) with (current_node b).
    rewrite <- skeleton_if_entry with (fill := fill).
    rewrite <- (branch_walk_skeleton fill _ "True" body Hbody).
    destruct (branch_walk (visit fill) (node_id (node_counter b)) "True" body None
                          (if_entry fill test b)) as [b1|e]; [|reflexivity].
    cbn [bind skeleton_of].
    change (set_current_node (Some (node_id (node_counter b))) (skeleton b1))
      with (skeleton (set_current_node (Some (node_id (node_counter b))) b1)).
    rewrite <- (branch_walk_skeleton fill _ "False" orelse Horelse).
    destruct (branch_walk (visit fill) (node_id (node_counter b)) "False" orelse None
                          (set_current_node (Some (node_id (node_counter b))) b1))
      as [b2|e]; reflexivity.
  - change (visit fill (Return text) b) with (visit_Return fill text b).
    change (visit blank (Return text) (skeleton b))
      with (visit_Return blank text (skeleton b)).
    rewrite !visit_Return_eq. simpl. now rewrite skeleton_after_leaf.
  - change (visit fill (Expr text) b) with (generic_visit_Expr fill text b).
    change (visit blank (Expr text) (skeleton b))
      with (generic_visit_Expr blank text (skeleton b)).
    rewrite !generic_visit_Expr_eq. simpl. now rewrite skeleton_after_leaf.
  - exact (visit_children_skeleton fill children Hch b).
Qed.

Lemma edges_unlabel (g : list item) : edges (map unlabel g) = edges g.
Proof.
  unfold edges. induction g as [|i g IH]; [reflexivity|].
  destruct i; simpl; now rewrite IH.
Qed.

Lemma node_names_unlabel (g : list item) : node_names (map unlabel g) = node_names g.
Proof.
  induction g as [|i g IH]; [reflexivity|].
  destruct i; simpl; now rewrite IH.
Qed.

(** X9: what [textwrap.fill] returns never decides what is drawn: with any
    two wrappings the builds of a tree differ in the label texts of their
    nodes only, having the same node names and fill colours in the same
    order, the same edges and the same final cursor, counter and flag. *)
Theorem structure_does_not_depend_on_wrapping (f g : string -> string)
        (tree : ast) :
  exists bf bg,
    build f tree = Ok bf /\ build g tree = Ok bg /\
    skeleton bf = skeleton bg /\
    edges (graph bf) = edges (graph bg) /\
    node_names (graph bf) = node_names (graph bg) /\
    length (graph bf) = length (graph bg).
Proof.
  destruct (build_succeeds f tree) as (bf & Ef).
  destruct (build_succeeds g tree) as (bg & Eg).
  exists bf, bg. split; [exact Ef|]. split; [exact Eg|].
  assert (S : skeleton bf = skeleton bg).
  { pose proof (visit_has_skeleton f tree init) as Hf.
    pose proof (visit_has_skeleton g tree init) as Hg.
    unfold build in Ef, Eg. rewrite Ef in Hf. rewrite Eg in Hg.
    cbn [skeleton_of] in Hf, Hg. congruence. }
  split; [exact S|].
  assert (G : map unlabel (graph bf) = map unlabel (graph bg))
    by (apply (f_equal graph) in S; exact S).
  split; [|split].
  - now rewrite <- (edges_unlabel (graph bf)), G, edges_unlabel.
  - now rewrite <- (node_names_unlabel (graph bf)), G, node_names_unlabel.
  - now rewrite <- (length_map unlabel (graph bf)), G, length_map.
Qed.

(** * Part III: the scenarios, on labels that fit a line *)

(** The names of the three nodes of [if x > 0: return 1 else: return -1]. *)
Lemma node_ids_increasing_and_unique_witness :
  exists b,
    build no_wrap (Other [If "x > 0" [Return "return 1"] [Return "return -1"]]) = Ok b /\
    node_names (graph b) = ["node_0"; "node_1"; "node_2"] /\
    NoDup (node_names (graph b)).
Proof.
  destruct (node_ids_increasing_and_unique no_wrap
              (Other [If "x > 0" [Return "return 1"] [Return "return -1"]]))
    as (b & E & N & D & _).
  exists b. split; [exact E|]. split; [|exact D].
  rewrite N. vm_compute in E. inversion E. reflexivity.
Defined.

(** The scenario [foo(); bar()]: two nodes, one unlabelled edge. *)
Lemma no_conditional_single_chain_witness :
  no_If (Other [Expr "foo()"; Expr "bar()"]) = true /\
  exists b,
    build no_wrap (Other [Expr "foo()"; Expr "bar()"]) = Ok b /\
    nodes (graph b) = [NodeStmt "node_0" "foo()" "lightyellow";
                       NodeStmt "node_1" "bar()" "lightyellow"] /\
    length (nodes (graph b)) = 2 /\
    edges (graph b) = [EdgeStmt "node_0" "node_1" None] /\
    length (edges (graph b)) = 1.
Proof.
  split; [reflexivity|].
  exact (no_conditional_single_chain no_wrap (Other [Expr "foo()"; Expr "bar()"])
                                     eq_refl).
Defined.

(** [if c: a(); b()]: the edge from [a()] to [b()] is labelled "True". *)
Lemma chain_edge_unlabelled_counterexample :
  exists b,
    build no_wrap (Other [If "c" [Expr "a()"; Expr "b()"] []]) = Ok b /\
    edges (graph b) = [EdgeStmt "node_0" "node_1" (Some "True");
                       EdgeStmt "node_1" "node_2" (Some "True")] /\
    ~ In (EdgeStmt "node_1" "node_2" None) (graph b).
Proof.
  eexists. split; [reflexivity|]. split; [reflexivity|].
  simpl. intros H. repeat (destruct H as [H|H]; [discriminate|]). exact H.
Qed.

(** The second turn of the walk over the body of [if c: a(); b()]. *)
Lemma chain_edge_carries_branch_label_witness :
  let b := mkBuilder
             (graph init ++
              [NodeStmt "node_0" "Condition: c" "lightblue";
               NodeStmt "node_1" "a()" "lightyellow";
               EdgeStmt "node_0" "node_1" (Some "True")])
             (Some "node_1") 2 false in
  let b1 := mkBuilder (graph b ++ [NodeStmt "node_2" "b()" "lightyellow"])
                      (Some "node_2") 3 true in
  wf b /\ current_node b = Some "node_1" /\ created 0 (node_counter b) "node_0" /\
  visit no_wrap (Expr "b()") (set_suppress_edge true b) = Ok b1 /\
  current_node b1 <> current_node b /\
  exists s,
    current_node b1 = Some s /\
    branch_walk (visit no_wrap) "node_0" "True" [Expr "b()"] (Some "node_1") b
    = branch_walk (visit no_wrap) "node_0" "True" [] (Some "node_1")
        (emit (EdgeStmt "node_1" s (Some "True")) (set_suppress_edge false b1)) /\
    exists b',
      branch_walk (visit no_wrap) "node_0" "True" [Expr "b()"] (Some "node_1") b = Ok b' /\
      In (EdgeStmt "node_1" s (Some "True")) (graph b').
Proof.
  intros b b1.
  assert (Hb : wf b) by (apply wfb_sound; reflexivity).
  assert (Hc : created 0 (node_counter b) "node_0")
    by (apply is_created_sound; reflexivity).
  assert (Hne : current_node b1 <> current_node b) by discriminate.
  repeat (split; [first [exact Hb | exact Hc | exact Hne | reflexivity]|]).
  exact (chain_edge_carries_branch_label no_wrap "node_0" "True" "node_1"
           (Expr "b()") [] b b1 "node_1" Hb eq_refl Hc eq_refl Hne).
Defined.

(** [if a: if b: return 1]: the edge from the outer to the inner condition
    node has no label. *)
Lemma nested_conditional_labelled_counterexample :
  exists b,
    build no_wrap (Other [If "a" [If "b" [Return "return 1"] []] []]) = Ok b /\
    edges (graph b) = [EdgeStmt "node_0" "node_1" None;
                       EdgeStmt "node_1" "node_2" (Some "True")] /\
    ~ In (EdgeStmt "node_0" "node_1" (Some "True")) (graph b).
Proof.
  eexists. split; [reflexivity|]. split; [reflexivity|].
  simpl. intros H. repeat (destruct H as [H|H]; [discriminate|]). exact H.
Qed.

(** The walk over the body of [if a: if b: return 1], from the entry of the
    outer conditional. *)
Lemma nested_conditional_edge_unlabelled_witness :
  let b := if_entry no_wrap "a" init in
  wf b /\ current_node b = Some "node_0" /\
  exists b',
    branch_walk (visit no_wrap) "node_0" "True"
                [If "b" [Return "return 1"] []] None b = Ok b' /\
    filter (enters "node_1") (graph b') = [EdgeStmt "node_0" "node_1" None].
Proof.
  intros b.
  assert (Hb : wf b) by (apply wfb_sound; reflexivity).
  split; [exact Hb|]. split; [reflexivity|].
  exact (nested_conditional_edge_unlabelled no_wrap "node_0" "True" "b"
           [Return "return 1"] [] [] b Hb eq_refl).
Defined.

(** [if x: pass] and [if a: if b: return 1]: a true branch that is not
    empty, and no "True" edge out of the (outer) condition node. *)
Lemma one_true_edge_counterexample :
  (exists b,
      build no_wrap (Other [If "x" [Other []] []]) = Ok b /\
      filter (leaves "node_0" (Some "True")) (graph b) = []) /\
  (exists b,
      build no_wrap (Other [If "a" [If "b" [Return "return 1"] []] []]) = Ok b /\
      filter (leaves "node_0" (Some "True")) (graph b) = []).
Proof. split; (eexists; split; reflexivity). Qed.

(** [if x: return 1; f()] at the top of a module. *)
Lemma true_edge_of_conditional_witness :
  wf init /\
  exists b',
    visit no_wrap (If "x" [Return "return 1"; Expr "f()"] []) init = Ok b' /\
    length (filter (leaves "node_0" (Some "True")) (graph b')) = 1 /\
    filter (leaves "node_0" (Some "False")) (graph b') = [].
Proof.
  assert (Hb : wf init) by (apply wfb_sound; reflexivity).
  split; [exact Hb|].
  exact (true_edge_of_conditional no_wrap "x" [Return "return 1"; Expr "f()"] init Hb).
Defined.

(** The scenario [if x > 0: return 1 else: return -1]: the label of the
    condition node is "Condition: x > 0", and no node is labelled "x > 0". *)
Lemma scenario_condition_label_counterexample :
  exists b,
    build no_wrap (Other [If "x > 0" [Return "return 1"] [Return "return -1"]]) = Ok b /\
    nodes (graph b)
    = [NodeStmt "node_0" "Condition: x > 0" "lightblue";
       NodeStmt "node_1" "return 1" "lightgreen";
       NodeStmt "node_2" "return -1" "lightgreen"] /\
    forall name fillcolor, ~ In (NodeStmt name "x > 0" fillcolor) (graph b).
Proof.
  eexists. split; [reflexivity|]. split; [reflexivity|].
  intros name fillcolor H. simpl in H.
  repeat (destruct H as [H|H]; [discriminate|]). exact H.
Qed.

(** [foo()] followed by [if x > 0: return 1 else: return -1]: the cursor is
    back on [foo()], and a [return] that follows is wired to [foo()]. *)
Lemma cursor_restored_after_If_witness :
  let b := mkBuilder (graph init ++ [NodeStmt "node_0" "foo()" "lightyellow"])
                     (Some "node_0") 1 false in
  wf b /\
  exists b1,
    visit no_wrap (If "x > 0" [Return "return 1"] [Return "return -1"]) b = Ok b1 /\
    current_node b1 = Some "node_0" /\
    visit no_wrap (Return "return 0") (set_suppress_edge false b1)
    = Ok (mkBuilder
            (graph b1 ++ [NodeStmt (node_id (node_counter b1)) "return 0" "lightgreen";
                          EdgeStmt "node_0" (node_id (node_counter b1)) None])
            (Some (node_id (node_counter b1))) (S (node_counter b1)) false).
Proof.
  intros b.
  assert (Hb : wf b) by (apply wfb_sound; reflexivity).
  split; [exact Hb|].
  destruct (cursor_restored_after_If no_wrap "x > 0" [Return "return 1"]
              [Return "return -1"] b Hb) as (b1 & E & K & _ & R & _).
  exists b1. split; [exact E|]. split; [exact K|]. exact (R "return 0").
Defined.

(** [if c:] over [while y: if t: return 1]: the wrapper's descendants create
    two nodes, the first of which draws its own edge from the outer condition
    node, while the branch walk wires nothing. *)
Lemma wrapper_with_conditional_counterexample :
  exists b,
    build no_wrap
          (Other [If "c" [Other [Other [Other []]; If "t" [Return "return 1"] []]] []])
    = Ok b /\
    node_names (graph b) = ["node_0"; "node_1"; "node_2"] /\
    filter (enters "node_1") (graph b) = [EdgeStmt "node_0" "node_1" None] /\
    filter (leaves "node_0" (Some "True")) (graph b) = [].
Proof. eexists. split; [reflexivity|]. repeat split. Qed.

(** The walk over the body of [if c:] over [while y: a(); b()]. *)
Lemma wrapper_nodes_left_unwired_witness :
  let b := if_entry no_wrap "c" init in
  let children := [Other [Other []]; Expr "a()"; Expr "b()"] in
  wf b /\ current_node b = Some "node_0" /\ created 0 (node_counter b) "node_0" /\
  forallb no_If children = true /\ 2 <= length (flat_map statements children) /\
  exists b1,
    visit no_wrap (Other children) (set_suppress_edge true b) = Ok b1 /\
    suppress_edge b1 = true /\
    graph b1 = graph b ++ [NodeStmt "node_1" "a()" "lightyellow";
                           NodeStmt "node_2" "b()" "lightyellow"] /\
    current_node b1 = Some "node_2" /\
    exists b',
      branch_walk (visit no_wrap) "node_0" "True" [Other children] None b = Ok b' /\
      filter (enters "node_2") (graph b')
      = [EdgeStmt "node_0" "node_2" (Some "True")] /\
      forall j, 1 <= j < 2 -> filter (enters (node_id j)) (graph b') = [].
Proof.
  intros b children.
  assert (Hb : wf b) by (apply wfb_sound; reflexivity).
  assert (Hc : created 0 (node_counter b) "node_0")
    by (apply is_created_sound; reflexivity).
  assert (Hk : 2 <= length (flat_map statements children)) by (simpl; lia).
  repeat (split; [first [exact Hb | exact Hc | exact Hk | reflexivity]|]).
  exact (wrapper_nodes_left_unwired no_wrap "node_0" "True" children [] None b
           "node_0" Hb eq_refl Hc eq_refl Hk).
Defined.

(** [if x: return 1] visited at the top of a module. *)
Lemma suppression_does_not_leak_witness :
  wf init /\ suppress_edge init = false /\
  exists b', visit no_wrap (If "x" [Return "return 1"] []) init = Ok b' /\
             suppress_edge b' = false.
Proof.
  assert (Hb : wf init) by (apply wfb_sound; reflexivity).
  split; [exact Hb|]. split; [reflexivity|].
  exact (suppression_does_not_leak no_wrap (If "x" [Return "return 1"] []) init
                                   Hb eq_refl).
Defined.

(** [if a: (if b: return 1) else: return 2]: no "True" edge, one "False"
    edge out of the outer condition node. *)
Lemma labelled_edges_of_conditional_witness :
  wf init /\
  exists b',
    visit no_wrap (If "a" [If "b" [Return "return 1"] []] [Return "return 2"]) init
    = Ok b' /\
    length (filter (leaves "node_0" (Some "True")) (graph b')) = 0 /\
    length (filter (leaves "node_0" (Some "False")) (graph b')) = 1.
Proof.
  assert (Hb : wf init) by (apply wfb_sound; reflexivity).
  split; [exact Hb|].
  exact (labelled_edges_of_conditional no_wrap "a" [If "b" [Return "return 1"] []]
                                       [Return "return 2"] init Hb).
Defined.

(** [if n % 2 == 0: print('even'); return True else: print('odd'); return
    False] at the top of a module. *)
Lemma conditional_over_plain_statements_witness :
  let body := [Expr "print('even')"; Return "return True"] in
  let orelse := [Expr "print('odd')"; Return "return False"] in
  wf init /\ forallb is_leaf body = true /\ forallb is_leaf orelse = true /\
  exists b',
    visit no_wrap (If "n % 2 == 0" body orelse) init = Ok b' /\
    graph b' = graph init ++
               [NodeStmt "node_0" "Condition: n % 2 == 0" "lightblue";
                NodeStmt "node_1" "print('even')" "lightyellow";
                EdgeStmt "node_0" "node_1" (Some "True");
                NodeStmt "node_2" "return True" "lightgreen";
                EdgeStmt "node_1" "node_2" (Some "True");
                NodeStmt "node_3" "print('odd')" "lightyellow";
                EdgeStmt "node_0" "node_3" (Some "False");
                NodeStmt "node_4" "return False" "lightgreen";
                EdgeStmt "node_3" "node_4" (Some "False")] /\
    current_node b' = None /\
    node_counter b' = 5.
Proof.
  intros body orelse.
  assert (Hb : wf init) by (apply wfb_sound; reflexivity).
  split; [exact Hb|]. split; [reflexivity|]. split; [reflexivity|].
  exact (conditional_over_plain_statements no_wrap "n % 2 == 0" body orelse init
                                           Hb eq_refl eq_refl).
Defined.

(** A file that holds [if x >], which does not parse. *)
Lemma main_reports_generated_witness :
  let ast_parse := fun _ : string =>
                     @Raise ast (SyntaxError "invalid syntax (<unknown>, line 1)") in
  let render := fun (_ : list item) (_ : string) => Ok tt in
  let read_file := fun _ : string => Contents "if x >" in
  read_file "input.py" = Contents "if x >" /\
  main no_wrap calls_return "maximum recursion depth exceeded" 1000
       ast_parse render read_file "input.py" "decision_tree"
  = (["Decision tree generated: Syntax error: invalid syntax (<unknown>, line 1)"],
     []).
Proof.
  intros ast_parse render read_file. split; [reflexivity|].
  exact (proj2 (main_reports_generated no_wrap calls_return
                  "maximum recursion depth exceeded" 1000 ast_parse render read_file
                  "input.py" "decision_tree" "if x >" eq_refl)
               "invalid syntax (<unknown>, line 1)" eq_refl).
Defined.

(** ** The interpreter's limits on closed inputs

    The interpreter's default of 1000 frames, all of them left to the
    visitor, and library calls that return whatever the stack. *)

(** [x = 1 + 1 + ... + 1] with 400 terms: the tree holds no recognised
    statement, and its visit raises [RecursionError] instead of returning a
    graph with no node and no edge. *)
Lemma unrecognized_build_fails_counterexample :
  let tree := Other [sum_assignment 399] in
  unrecognized tree = true /\
  build_on_stack no_wrap calls_return "maximum recursion depth exceeded" 1000 tree
  = Raise (Exception "maximum recursion depth exceeded") /\
  ~ (exists g, build_on_stack no_wrap calls_return
                 "maximum recursion depth exceeded" 1000 tree = Ok g).
Proof.
  assert (E : build_on_stack no_wrap calls_return
                "maximum recursion depth exceeded" 1000 (Other [sum_assignment 399])
              = Raise (Exception "maximum recursion depth exceeded"))
    by (vm_compute; reflexivity).
  split; [vm_compute; reflexivity|]. split; [exact E|].
  intros (g & G). rewrite E in G. discriminate.
Qed.

(** [while x: foo()] after [pass]: the loop and its test create no node,
    the call inside the loop does. *)
Lemma unrecognized_is_transparent_witness :
  let children := [Other []; Other [Other [Other []]; Expr "foo()"]] in
  wfb init = true /\
  fits calls_return 1000 (Other children) = true /\
  exists b',
    visit_on_stack no_wrap calls_return "maximum recursion depth exceeded" 1000
                   (Other children) init = Ok b' /\
    nodes (graph b') = [NodeStmt "node_0" "foo()" "lightyellow"] /\
    node_counter b' = 1.
Proof.
  intros children. split; [reflexivity|]. split; [reflexivity|].
  destruct (proj1 (unrecognized_is_transparent no_wrap calls_return
                     "maximum recursion depth exceeded" 1000 1000 children init
                     (wfb_sound init eq_refl)) eq_refl)
    as (b' & E & _ & N & C & _).
  exists b'. split; [exact E|]. split; [exact N|exact C].
Defined.

(** [if x: pass] followed by 600 times [elif x: pass]: the builder raises
    [RecursionError], and [generate_decision_tree] returns the message of
    its handler without rendering. *)
Lemma builder_raises_counterexample :
  let tree := Other [elif_chain 600] in
  let ast_parse := fun _ : string => Ok tree in
  let render := fun (_ : list item) (_ : string) => Ok tt in
  build_on_stack no_wrap calls_return "maximum recursion depth exceeded" 1000 tree
  = Raise (Exception "maximum recursion depth exceeded") /\
  ~ (exists b, build_on_stack no_wrap calls_return
                 "maximum recursion depth exceeded" 1000 tree = Ok b) /\
  generate_decision_tree no_wrap calls_return "maximum recursion depth exceeded"
                         1000 ast_parse render "if x: pass" "decision_tree"
  = ("Error: maximum recursion depth exceeded", []).
Proof.
  assert (E : build_on_stack no_wrap calls_return
                "maximum recursion depth exceeded" 1000 (Other [elif_chain 600])
              = Raise (Exception "maximum recursion depth exceeded"))
    by (vm_compute; reflexivity).
  cbv zeta. split; [exact E|]. split.
  - intros (b & B). rewrite E in B. discriminate.
  - unfold generate_decision_tree. now rewrite E.
Qed.

(** A parser that rejects its input. *)
Lemma parse_failure_is_reported_witness :
  let ast_parse := fun _ : string =>
                     @Raise ast (SyntaxError "invalid syntax (<unknown>, line 1)") in
  let render := fun (_ : list item) (_ : string) => Ok tt in
  ast_parse "if x >" = Raise (SyntaxError "invalid syntax (<unknown>, line 1)") /\
  generate_decision_tree no_wrap calls_return "maximum recursion depth exceeded"
                         1000 ast_parse render "if x >" "decision_tree"
  = ("Syntax error: invalid syntax (<unknown>, line 1)", []).
Proof.
  intros ast_parse render. split; [reflexivity|].
  exact (proj1 (parse_failure_is_reported no_wrap calls_return
                  "maximum recursion depth exceeded" 1000 ast_parse render
                  "if x >" "decision_tree"
                  (SyntaxError "invalid syntax (<unknown>, line 1)") eq_refl)).
Defined.

(** [if x > 0: return 1] with [else: return -1]. *)
Lemma nodes_are_the_reached_statements_witness :
  let tree := Other [If "x > 0" [Return "return 1"] [Return "return -1"]] in
  fits calls_return 1000 tree = true /\
  exists b,
    build_on_stack no_wrap calls_return "maximum recursion depth exceeded" 1000 tree
    = Ok b /\
    nodes (graph b)
    = [NodeStmt "node_0" "Condition: x > 0" "lightblue";
       NodeStmt "node_1" "return 1" "lightgreen";
       NodeStmt "node_2" "return -1" "lightgreen"] /\
    node_counter b = 3.
Proof.
  intros tree. split; [reflexivity|].
  destruct (nodes_are_the_reached_statements no_wrap calls_return
              "maximum recursion depth exceeded" 1000 tree) as [Hf Hn].
  destruct (Hf eq_refl) as (b & E). exists b. split; [exact E|].
  destruct (Hn b E) as (N & _ & C). split; [exact N|exact C].
Defined.

(** A source that parses to [foo()], and one that parses to the chain of
    600 [elif]; a renderer that succeeds. *)
Lemma generate_on_parsed_source_witness :
  let render := fun (_ : list item) (_ : string) => Ok tt in
  (let ast_parse := fun _ : string => Ok (Other [Expr "foo()"]) in
   ast_parse "foo()" = Ok (Other [Expr "foo()"]) /\
   fits calls_return 1000 (Other [Expr "foo()"]) = true /\
   exists b,
     build no_wrap (Other [Expr "foo()"]) = Ok b /\
     generate_decision_tree no_wrap calls_return "maximum recursion depth exceeded"
                            1000 ast_parse render "foo()" "decision_tree"
     = ("decision_tree.png", [(graph b, "decision_tree")])) /\
  (let ast_parse := fun _ : string => Ok (Other [elif_chain 600]) in
   ast_parse "if x: pass" = Ok (Other [elif_chain 600]) /\
   fits calls_return 1000 (Other [elif_chain 600]) = false /\
   generate_decision_tree no_wrap calls_return "maximum recursion depth exceeded"
                          1000 ast_parse render "if x: pass" "decision_tree"
   = ("Error: maximum recursion depth exceeded", [])).
Proof.
  intros render. split.
  - intros ast_parse. split; [reflexivity|]. split; [reflexivity|].
    destruct (generate_on_parsed_source no_wrap calls_return
                "maximum recursion depth exceeded" 1000 ast_parse render
                "foo()" "decision_tree" (Other [Expr "foo()"]) eq_refl)
      as (Hr & _ & Hf & _).
    destruct (Hf eq_refl) as (b & E & B). exists b. split; [exact B|].
    exact (Hr b E).
  - intros ast_parse. split; [reflexivity|].
    assert (F : fits calls_return 1000 (Other [elif_chain 600]) = false)
      by (vm_compute; reflexivity).
    split; [exact F|].
    exact (proj2 (proj2 (proj2 (proj2
             (generate_on_parsed_source no_wrap calls_return
                "maximum recursion depth exceeded" 1000 ast_parse render
                "if x: pass" "decision_tree" (Other [elif_chain 600]) eq_refl))))
             F (fun _ _ => eq_refl)).
Defined.
